(** * Shotgun toolkit hooks for 3DEqualizer: a shallow embedding

    Two hook files are embedded:
    - [hooks/tk-multi-loader2/tk-3dequalizer_actions.py]  (module [Loader])
    - [hooks/tk-multi-snapshot/scene_operation_tk-3dequalizer.py]
      (module [Snapshot])

    Python values are modelled as follows.  Integers are [Z] (Python
    integers do not wrap).  Strings are [string], one [ascii] per
    character; [\d] in a pattern compiled without [re.UNICODE] matches
    exactly the characters '0'..'9'.  Exceptions are the constructors of
    [exn]; a computation that may raise and that talks to the host
    application runs in the monad [M], which threads the [world] and keeps
    the world reached when an exception is raised. *)

From Stdlib Require Import List ZArith Lia Bool Arith Ascii String.
From Stdlib Require Import Sorting.Sorted Sorting.Permutation.
From Stdlib Require Import Decimal DecimalString DecimalZ.
Import ListNotations.

Local Open Scope list_scope.
Local Open Scope string_scope.

(** ** Python built-ins used by the hooks *)

Module Py.

(** [c in "0123456789"], the class [\d] of a byte pattern. *)
Definition is_digit (c : ascii) : bool :=
  let n := nat_of_ascii c in ((48 <=? n) && (n <=? 57))%nat.

Definition digit_value (c : ascii) : Z := Z.of_nat (nat_of_ascii c) - 48.

(** [int(s)] for [s] a run of decimal digits (leading zeros allowed). *)
Fixpoint int_acc (acc : Z) (s : string) : Z :=
  match s with
  | EmptyString => acc
  | String c r => int_acc (10 * acc + digit_value c) r
  end.

Definition int (s : string) : Z := int_acc 0 s.

(** The longest prefix of digits and what follows it: what a greedy
    [\d*] consumes. *)
Fixpoint span_digits (s : string) : string * string :=
  match s with
  | EmptyString => (EmptyString, EmptyString)
  | String c r =>
      if is_digit c
      then let (ds, rest) := span_digits r in (String c ds, rest)
      else (EmptyString, s)
  end.

(** [s.startswith(p)] *)
Fixpoint startswith (s p : string) : bool :=
  match p, s with
  | EmptyString, _ => true
  | String a p', String b s' => Ascii.eqb a b && startswith s' p'
  | String _ _, EmptyString => false
  end.

(** [s.replace(old, new)] for a non-empty [old]: every occurrence of
    [old], found from left to right without overlap, becomes [new].
    [skip] counts the characters of a matched occurrence still to drop. *)
Fixpoint replace_from (old new : string) (skip : nat) (s : string) : string :=
  match s with
  | EmptyString => EmptyString
  | String c r =>
      match skip with
      | S k => replace_from old new k r
      | O =>
          if startswith s old
          then new ++ replace_from old new (String.length old - 1) r
          else String c (replace_from old new 0 r)
      end
  end.

Definition replace (s old new : string) : string := replace_from old new 0 s.

(** [c * n] for a one-character string [c]. *)
Fixpoint repeat_char (c : ascii) (n : nat) : string :=
  match n with
  | O => EmptyString
  | S k => String c (repeat_char c k)
  end.

(** [sorted(l)] on integers, by insertion. *)
Fixpoint insert (x : Z) (l : list Z) : list Z :=
  match l with
  | [] => [x]
  | y :: r => if (x <=? y)%Z then x :: l else y :: insert x r
  end.

Fixpoint sorted (l : list Z) : list Z :=
  match l with
  | [] => []
  | x :: r => insert x (sorted r)
  end.

(** [l[:-1]] *)
Definition but_last {A} (l : list A) : list A := removelast l.

(** [l[1:]] *)
Definition from_1 {A} (l : list A) : list A := tl l.

(** [izip(a, b)]: pairs up to the end of the shorter argument. *)
Definition izip {A B} (a : list A) (b : list B) : list (A * B) := combine a b.

(** [itertools.groupby(l, key)]: the maximal runs of consecutive elements
    with equal keys, each with the key of its first element. *)
Section Groupby.
Context {A K : Type} (eqb : K -> K -> bool) (key : A -> K).

Fixpoint groupby (l : list A) : list (K * list A) :=
  match l with
  | [] => []
  | x :: r =>
      match groupby r with
      | (k, g) :: gs =>
          if eqb (key x) k then (key x, x :: g) :: gs
          else (key x, [x]) :: (k, g) :: gs
      | [] => [(key x, [x])]
      end
  end.
End Groupby.

(** [min(l)] and [max(l)] of a non-empty list. *)
Definition min_from (x : Z) (l : list Z) : Z := fold_left Z.min l x.
Definition max_from (x : Z) (l : list Z) : Z := fold_left Z.max l x.

End Py.

(** ** Regular expressions

    Both patterns of the hooks have the shape [opening(\d+)closing]: a
    literal, a greedy run of one or more digits captured as a group, and a
    closing character that is not a digit. *)

Module Re.

(** [s] without the literal [p] in front, if it starts with it. *)
Fixpoint strip_prefix (p s : string) : option string :=
  match p, s with
  | EmptyString, _ => Some s
  | String a p', String b s' =>
      if Ascii.eqb a b then strip_prefix p' s' else None
  | String _ _, EmptyString => None
  end.

(** The pattern tried at the start of [s]: the digits of the group.  After
    the literal the greedy [\d+] takes every digit there is; giving some
    back cannot help, as the character after a shorter run is a digit and
    not the closing character. *)
Definition match_at (opening : string) (closing : ascii) (s : string)
  : option string :=
  match strip_prefix opening s with
  | Some r =>
      match Py.span_digits r with
      | (String c ds, String e _) =>
          if Ascii.eqb e closing then Some (String c ds) else None
      | _ => None
      end
  | None => None
  end.

(** [pattern.search(s)]: the match at the leftmost position that has one. *)
Fixpoint search (opening : string) (closing : ascii) (s : string)
  : option string :=
  match match_at opening closing s with
  | Some g => Some g
  | None =>
      match s with
      | EmptyString => None
      | String _ r => search opening closing r
      end
  end.

End Re.

(** ** Exceptions *)

(** [errno.ENOENT] *)
Definition ENOENT : Z := 2.

Inductive exn : Type :=
| FileExistenceError (errno : Z) (strerror : string) (filename : string)
| ValueError (msg : string)
| IndexError (msg : string)
| HostError (msg : string)
| OutOfFuel.

Inductive result (A : Type) : Type :=
| Return (a : A)
| Raise (e : exn).
Arguments Return {A} a.
Arguments Raise {A} e.

(** [FileExistenceError.__init__(self, path)]: an [OSError] built from
    [errno.ENOENT], the fixed message and the path. *)
Definition new_FileExistenceError (path : string) : exn :=
  FileExistenceError ENOENT "Couldn't find file on disk for published file path" path.

(** [min(l)], [max(l)] and [l[0]] with the exception Python raises on an
    empty list. *)
Definition py_min (l : list Z) : result Z :=
  match l with
  | [] => Raise (ValueError "min() arg is an empty sequence")
  | x :: r => Return (Py.min_from x r)
  end.

Definition py_max (l : list Z) : result Z :=
  match l with
  | [] => Raise (ValueError "max() arg is an empty sequence")
  | x :: r => Return (Py.max_from x r)
  end.

Definition py_item0 {A} (l : list A) : result A :=
  match l with
  | [] => Raise (IndexError "list index out of range")
  | x :: _ => Return x
  end.

(** ** The world the hooks run in *)

(** Python values that the hooks only pass along (publish data, action
    parameters). *)
#[warnings="-register-all"]
Inductive pyval : Type :=
| PNone
| PInt (z : Z)
| PStr (s : string)
| PList (l : list pyval)
| PDict (d : list (string * pyval)).

(** A camera of the 3DEqualizer project, with the attributes the hooks
    read or write. *)
Record camera : Type := mkCamera {
  cam_id : positive;
  cam_name : string;
  cam_type : string;
  cam_selected : bool;
  cam_seq_attr : Z * Z * Z;
  cam_frame_offset : Z;
  cam_frame_range_calc : Z;
  cam_path : string
}.

(** Calls of the host scripting module [tde4] that change the project. *)
Inductive tde4_call : Type :=
| setCameraName (cam : positive) (name : string)
| setCameraSequenceAttr (cam : positive) (start stop step : Z)
| setCameraFrameOffset (cam : positive) (offset : Z)
| setCameraFrameRangeCalculationFlag (cam : positive) (flag : Z)
| setCameraPath (cam : positive) (path : string)
| loadProject (path : string)
| saveProject (path : option string).

Inductive log_level : Type := DEBUG | INFO.

(** An argument handed to a logger call after its format string. *)
Inductive log_arg : Type :=
| LStr (s : string)
| LInt (z : Z)
| LCam (cam : positive)
| LVal (v : pyval)
| LStrs (l : list string).

(** What the hooks do that can be observed from outside, in the order in
    which it happens. *)
Inductive event : Type :=
| Glob (pattern : string)
| Log (level : log_level) (fmt : string) (args : list log_arg)
| Tde4 (call : tde4_call)
| QMessageBox_warning (title text : string).

Record world : Type := mkWorld {
  (** [glob.glob]: the files on disk that a pattern expands to *)
  fs_glob : string -> list string;
  (** the cameras of the open project, in the host's order *)
  cameras : list camera;
  (** [tde4.getProjectPath()], [None] for a project never saved *)
  project_path : option string;
  trace : list event
}.

Definition emit (e : event) (w : world) : world :=
  mkWorld (fs_glob w) (cameras w) (project_path w) (trace w ++ [e]).

Definition with_cameras (cs : list camera) (w : world) : world :=
  mkWorld (fs_glob w) cs (project_path w) (trace w).

Definition with_project_path (p : option string) (w : world) : world :=
  mkWorld (fs_glob w) (cameras w) p (trace w).

(** ** The monad of hook code: state and exceptions *)

Definition M (A : Type) : Type := world -> result A * world.

Definition ret {A} (a : A) : M A := fun w => (Return a, w).

Definition raise {A} (e : exn) : M A := fun w => (Raise e, w).

Definition bind {A B} (m : M A) (k : A -> M B) : M B :=
  fun w =>
    match m w with
    | (Return a, w') => k a w'
    | (Raise e, w') => (Raise e, w')
    end.

Definition lift {A} (r : result A) : M A := fun w => (r, w).

Definition gets {A} (f : world -> A) : M A := fun w => (Return (f w), w).

Definition modify (f : world -> world) : M unit := fun w => (Return tt, f w).

Declare Scope hook_scope.
Delimit Scope hook_scope with hook.
Notation "x <- m ;; k" := (bind m (fun x => k))
  (at level 100, m at next level, right associativity) : hook_scope.
Notation "' p <- m ;; k" := (bind m (fun x => match x with p => k end))
  (at level 100, p pattern, m at next level, right associativity) : hook_scope.
Notation "m ;; k" := (bind m (fun _ => k))
  (at level 100, right associativity) : hook_scope.
Local Open Scope hook_scope.

(** [for x in l: body x] *)
Fixpoint for_each {A} (l : list A) (body : A -> M unit) : M unit :=
  match l with
  | [] => ret tt
  | x :: r => body x ;; for_each r body
  end.

(** [filter(p, l)] with a predicate that reads the world. *)
Fixpoint filterM {A} (p : A -> M bool) (l : list A) : M (list A) :=
  match l with
  | [] => ret []
  | x :: r =>
      b <- p x ;;
      r' <- filterM p r ;;
      ret (if b then x :: r' else r')
  end.

(** The events that a run from [w] added to the trace. *)
Definition added (w w' : world) : list event :=
  skipn (List.length (trace w)) (trace w').

(** ** The host scripting module [tde4]

    The module belongs to 3DEqualizer; the definitions below say what the
    embedding takes its functions to do.  Camera identifiers are handles
    that Python treats as true. *)

Module tde4.

Definition logger (level : log_level) (fmt : string) (args : list log_arg) : M unit :=
  modify (emit (Log level fmt args)).

Definition lookup (cam : positive) (cs : list camera) : option camera :=
  find (fun c => Pos.eqb (cam_id c) cam) cs.

Definition update (cam : positive) (f : camera -> camera) (cs : list camera)
  : list camera :=
  map (fun c => if Pos.eqb (cam_id c) cam then f c else c) cs.

Definition call (c : tde4_call) (f : list camera -> list camera) : M unit :=
  modify (fun w => emit (Tde4 c) (with_cameras (f (cameras w)) w)).

Definition getNoCameras : M Z :=
  gets (fun w => Z.of_nat (List.length (cameras w))).

Definition getCameraList (selected_only : bool) : M (list positive) :=
  gets (fun w =>
    map cam_id
        (filter (fun c => if selected_only then cam_selected c else true)
                (cameras w))).

Definition getCameraType (cam : positive) : M string :=
  gets (fun w =>
    match lookup cam (cameras w) with
    | Some c => cam_type c
    | None => ""
    end).

Definition getCameraName (cam : positive) : M string :=
  gets (fun w =>
    match lookup cam (cameras w) with
    | Some c => cam_name c
    | None => ""
    end).

Definition findCameraByName (name : string) : M (option positive) :=
  gets (fun w =>
    option_map cam_id
      (find (fun c => String.eqb (cam_name c) name) (cameras w))).

Definition set_name (n : string) (c : camera) : camera :=
  mkCamera (cam_id c) n (cam_type c) (cam_selected c) (cam_seq_attr c)
           (cam_frame_offset c) (cam_frame_range_calc c) (cam_path c).

Definition set_seq_attr (a : Z * Z * Z) (c : camera) : camera :=
  mkCamera (cam_id c) (cam_name c) (cam_type c) (cam_selected c) a
           (cam_frame_offset c) (cam_frame_range_calc c) (cam_path c).

Definition set_frame_offset (o : Z) (c : camera) : camera :=
  mkCamera (cam_id c) (cam_name c) (cam_type c) (cam_selected c)
           (cam_seq_attr c) o (cam_frame_range_calc c) (cam_path c).

Definition set_frame_range_calc (f : Z) (c : camera) : camera :=
  mkCamera (cam_id c) (cam_name c) (cam_type c) (cam_selected c)
           (cam_seq_attr c) (cam_frame_offset c) f (cam_path c).

Definition set_path (p : string) (c : camera) : camera :=
  mkCamera (cam_id c) (cam_name c) (cam_type c) (cam_selected c)
           (cam_seq_attr c) (cam_frame_offset c) (cam_frame_range_calc c) p.

Definition setCameraName (cam : positive) (name : string) : M unit :=
  call (setCameraName cam name) (update cam (set_name name)).

Definition setCameraSequenceAttr (cam : positive) (start stop step : Z) : M unit :=
  call (setCameraSequenceAttr cam start stop step)
       (update cam (set_seq_attr (start, stop, step))).

Definition setCameraFrameOffset (cam : positive) (offset : Z) : M unit :=
  call (setCameraFrameOffset cam offset) (update cam (set_frame_offset offset)).

Definition setCameraFrameRangeCalculationFlag (cam : positive) (flag : Z) : M unit :=
  call (setCameraFrameRangeCalculationFlag cam flag)
       (update cam (set_frame_range_calc flag)).

Definition setCameraPath (cam : positive) (path : string) : M unit :=
  call (setCameraPath cam path) (update cam (set_path path)).

Definition getProjectPath : M (option string) := gets project_path.

(** Opening a project makes it the open one, whatever was open before. *)
Definition loadProject (path : string) : M unit :=
  modify (fun w => emit (Tde4 (loadProject path))
                        (with_project_path (Some path) w)).

Definition saveProject (path : option string) : M unit :=
  modify (fun w => emit (Tde4 (saveProject path))
                        (with_project_path path w)).

End tde4.

(** ** hooks/tk-multi-loader2/tk-3dequalizer_actions.py *)

Module Loader.

(** [glob.glob(pattern)] *)
Definition glob (pattern : string) : M (list string) :=
  fun w => (Return (fs_glob w pattern), emit (Glob pattern) w).

(** [QtGui.QMessageBox.warning(None, title, text)] *)
Definition QMessageBox_warning (title text : string) : M unit :=
  modify (emit (QMessageBox_warning title text)).

(** [str(n)] for an integer. *)
Definition str_of_int (n : Z) : string := NilZero.string_of_int (Z.to_int n).

(** ["{:02}".format(n)]: at least two characters, padded with zeros. *)
Definition format_02 (n : Z) : string :=
  let s := str_of_int n in
  if (String.length s <? 2)%nat then "0" ++ s else s.

Definition frames_diff (frames : Z * Z) : Z := snd frames - fst frames.

(** [re.compile(r"\.(\d+)\.").search(s)]: group 1 of the leftmost match. *)
Definition frame_number_search (s : string) : option string :=
  Re.search "." "." s.

(** The loop of [get_frame_numbers]: the numbers in the order of the
    paths, a path without a match adding nothing. *)
Fixpoint collect_frame_numbers (paths : list string) : list Z :=
  match paths with
  | [] => []
  | path :: r =>
      match frame_number_search path with
      | Some g => Py.int g :: collect_frame_numbers r
      | None => collect_frame_numbers r
      end
  end.

Definition get_frame_numbers (paths : list string) : list Z :=
  Py.sorted (collect_frame_numbers paths).

(** [re.compile(r"(%0(\d+)d)").search(s)]: groups 1 and 2 of the leftmost
    match. *)
Definition frame_spec_search (s : string) : option (string * string) :=
  match Re.search "%0" "d" s with
  | Some ds => Some ("%0" ++ ds ++ "d", ds)
  | None => None
  end.

(** The keys that the loop over [groupby] appends to [steps]. *)
Definition group_steps (numbers : list Z) : list Z :=
  map fst (Py.groupby Z.eqb frames_diff
             (Py.izip (Py.but_last numbers) (Py.from_1 numbers))).

Definition get_hash_path_and_range_info_from_seq (path : string)
  : M (string * Z * Z * Z) :=
  match frame_spec_search path with
  | Some (frame_spec, width) =>
      let glob_path := Py.replace path frame_spec "*" in
      frame_files <- glob glob_path ;;
      let numbers := get_frame_numbers frame_files in
      match frame_files with
      | [] => raise (new_FileExistenceError path)
      | _ :: _ =>
          let steps := group_steps numbers in
          if (1 <? List.length steps)%nat
          then raise (ValueError "Inconsistent frame steps")
          else
            let path := Py.replace path frame_spec
                          (Py.repeat_char "#" (Z.to_nat (Py.int width))) in
            start <- lift (py_min numbers) ;;
            stop <- lift (py_max numbers) ;;
            step <- lift (py_item0 steps) ;;
            ret (path, start, stop, step)
      end
  | None => ret (path, 1, 1, 1)%Z
  end.

Definition is_sequence_camera (cam : positive) : M bool :=
  t <- tde4.getCameraType cam ;;
  ret (String.eqb t "SEQUENCE").

(** *** class TDE4Actions *)

(** [self.parent]: the application, of which the hook reads the name of
    the entity of the current context. *)
Record app : Type := mkApp {
  context_entity_name : string
}.

(** The hook instance: its application and the method it inherits from
    the hook base class of the toolkit. *)
Record hook : Type := mkHook {
  parent : app;
  get_publish_path : pyval -> result string
}.



(** The loop that looks for a camera name not yet taken.  Each turn asks
    the host once; [fuel] bounds the number of turns. *)
Fixpoint find_unused_name (fuel : nat) (name cam_name : string) (count : Z)
  : M string :=
  match fuel with
  | O => raise OutOfFuel
  | S fuel' =>
      found <- tde4.findCameraByName cam_name ;;
      match found with
      | Some _ =>
          let count := (count + 1)%Z in
          find_unused_name fuel' name (name ++ "__" ++ format_02 count) count
      | None => ret cam_name
      end
  end.

(** The body of the loop over the selected sequence cameras. *)
Definition assign_camera (name path : string) (start stop step : Z)
           (cam : positive) : M unit :=
  current_name <- tde4.getCameraName cam ;;
  tde4.logger DEBUG "Current camera: '%s'" [LStr current_name] ;;
  (if Py.startswith current_name name
   then tde4.logger INFO "'%s' already has name referring to Shot"
                    [LStr current_name]
   else
     n <- gets (fun w => List.length (cameras w)) ;;
     cam_name <- find_unused_name (S n) name name 0 ;;
     tde4.logger INFO "Renaming '%s' to '%s'" [LStr current_name; LStr cam_name] ;;
     tde4.setCameraName cam cam_name) ;;
  tde4.logger DEBUG "setCameraSequenceAttr: %s, %d, %d, %d"
              [LCam cam; LInt start; LInt stop; LInt step] ;;
  tde4.setCameraSequenceAttr cam start stop step ;;
  tde4.logger DEBUG "setCameraFrameOffset: %s, %d" [LCam cam; LInt start] ;;
  tde4.setCameraFrameOffset cam start ;;
  tde4.logger DEBUG "setCameraFrameRangeCalculationFlag: %s, 1" [LCam cam] ;;
  tde4.setCameraFrameRangeCalculationFlag cam 1 ;;
  tde4.logger DEBUG "setCameraPath: %s, %s" [LCam cam; LStr path] ;;
  tde4.setCameraPath cam path.

Definition _import_image_seq (self : hook) (path : string)
           (sg_publish_data : pyval) : M unit :=
  ' (path, start, stop, step) <- get_hash_path_and_range_info_from_seq path ;;
  let name := context_entity_name (parent self) in
  n <- tde4.getNoCameras ;;
  if (n =? 0)%Z
  then QMessageBox_warning "No cameras exist"
         "Please create a sequence camera and try again"
  else
    selected <- tde4.getCameraList true ;;
    selected_cameras <- filterM is_sequence_camera selected ;;
    match selected_cameras with
    | [] => QMessageBox_warning "No sequence cameras selected"
              "Please select a sequence camera and try again"
    | _ :: _ =>
        tde4.logger INFO "%d sequence cameras selected, assigning to all"
                    [LInt (Z.of_nat (List.length selected_cameras))] ;;
        for_each selected_cameras (assign_camera name path start stop step)
    end.

Definition execute_action (self : hook) (name : string) (params : pyval)
           (sg_publish_data : pyval) : M unit :=
  tde4.logger DEBUG
    "Execute action called for action %s. Parameters: %s. Publish Data: %s"
    [LStr name; LVal params; LVal sg_publish_data] ;;
  path <- lift (get_publish_path self sg_publish_data) ;;
  if String.eqb name "import_image_seq"
  then _import_image_seq self path sg_publish_data
  else ret tt.

(** An entry of the list given to [execute_multiple_actions]. *)
Record action : Type := mkAction {
  name : string;
  sg_publish_data : pyval;
  params : pyval
}.

(** [self.execute_action] is looked up on the instance, and a deriving
    class may override it: the loop takes it as an argument. *)
Section Dispatch.
Variable execute_action : string -> pyval -> pyval -> M unit.

Definition execute_multiple_actions (actions : list action) : M unit :=
  for_each actions (fun single_action =>
    let name := name single_action in
    let sg_publish_data := sg_publish_data single_action in
    let params := params single_action in
    execute_action name params sg_publish_data).
End Dispatch.

End Loader.

(** ** hooks/tk-multi-snapshot/scene_operation_tk-3dequalizer.py *)

Module Snapshot.

(** [SceneOperation.execute(operation, file_path)]; the result [None]
    stands for Python's [None], also when it is what the host returned. *)
Definition execute (operation : string) (file_path : string)
  : M (option string) :=
  if String.eqb operation "current_path" then
    tde4.getProjectPath
  else if String.eqb operation "open" then
    tde4.loadProject file_path ;;
    ret None
  else if String.eqb operation "save" then
    current_file <- tde4.getProjectPath ;;
    tde4.saveProject current_file ;;
    ret None
  else ret None.

End Snapshot.

(** * The vocabulary of the properties *)

(** [m] is the least (greatest) element of [l]. *)
Definition is_minimum (m : Z) (l : list Z) : Prop :=
  In m l /\ forall y, In y l -> (m <= y)%Z.

Definition is_maximum (m : Z) (l : list Z) : Prop :=
  In m l /\ forall y, In y l -> (y <= m)%Z.

(** [s] is made of digits only. *)
Fixpoint all_digits (s : string) : bool :=
  match s with
  | EmptyString => true
  | String c r => Py.is_digit c && all_digits r
  end.

(** Somewhere in [s] there is [opening], then one or more digits, then
    [closing]. *)
Definition has_digits_between (opening : string) (closing : ascii) (s : string)
  : Prop :=
  exists pre ds post,
    ds <> "" /\ all_digits ds = true /\
    s = pre ++ opening ++ ds ++ String closing post.

(** The path has a placeholder [%0Nd]. *)
Definition has_placeholder (path : string) : Prop :=
  has_digits_between "%0" "d" path.

(** The path has a run of digits between two dots. *)
Definition has_dotted_number (path : string) : Prop :=
  has_digits_between "." "." path.

(** The pairs [(numbers[i], numbers[i+1])] that the loop groups. *)
Definition consecutive (l : list Z) : list (Z * Z) :=
  Py.izip (Py.but_last l) (Py.from_1 l).

(** The differences between consecutive frames. *)
Definition differences (l : list Z) : list Z :=
  map Loader.frames_diff (consecutive l).

(** Every frame is [d] after the one before it. *)
Definition arithmetic_progression (d : Z) (l : list Z) : Prop :=
  forall i, (S i < List.length l)%nat -> (nth (S i) l 0 - nth i l 0 = d)%Z.

(** The result of a hook computation, without the world it leaves. *)
Definition outcome {A} (m : M A) (w : world) : result A := fst (m w).

(** The pattern that the resolver hands to [glob.glob]. *)
Definition glob_pattern (path spec : string) : string := Py.replace path spec "*".

(** The files that a template with the placeholder [spec] matches. *)
Definition matched_files (w : world) (path spec : string) : list string :=
  fs_glob w (glob_pattern path spec).

(** The path with the placeholder turned into [N] hash characters. *)
Definition hash_path (path spec width : string) : string :=
  Py.replace path spec (Py.repeat_char "#" (Z.to_nat (Py.int width))).

(** The resolver returns the descriptor of a sequence of step [d]: the hash
    path, the least and the greatest frame number, and [d]. *)
Definition resolves_to_progression (path spec width : string) (w : world) (d : Z)
  : Prop :=
  let numbers := Loader.get_frame_numbers (matched_files w path spec) in
  exists start stop,
    outcome (Loader.get_hash_path_and_range_info_from_seq path) w =
      Return (hash_path path spec width, start, stop, d) /\
    is_minimum start numbers /\ is_maximum stop numbers.

(** The maximal runs of equal difference between consecutive frames. *)
Definition runs (numbers : list Z) : list (Z * list Z) :=
  Py.groupby Z.eqb (fun d => d) (differences numbers).

(** More than one step value occurs between consecutive frames. *)
Definition several_steps (numbers : list Z) : Prop :=
  exists a b, In a (differences numbers) /\ In b (differences numbers) /\ a <> b.

(** One entry of the list handed to [execute_action]. *)
Definition dispatch (execute_action : string -> pyval -> pyval -> M unit)
           (a : Loader.action) : M unit :=
  execute_action (Loader.name a) (Loader.params a) (Loader.sg_publish_data a).

(** The names tried for a camera that wants [base]: [base], [base__01],
    [base__02], ... *)
Definition candidate (base : string) (k : nat) : string :=
  match k with
  | O => base
  | S _ => base ++ "__" ++ Loader.format_02 (Z.of_nat k)
  end.

(** A camera of the project has the name [n]. *)
Definition name_taken (w : world) (n : string) : Prop :=
  In n (map cam_name (cameras w)).

(** What [tde4.getCameraName] returns for [cam]. *)
Definition current_name (w : world) (cam : positive) : string :=
  match tde4.lookup cam (cameras w) with
  | Some c => cam_name c
  | None => ""
  end.

(** The attributes that the import sets on a camera. *)
Definition set_attributes (path : string) (start stop step : Z) (c : camera)
  : camera :=
  tde4.set_path path
    (tde4.set_frame_range_calc 1
       (tde4.set_frame_offset start
          (tde4.set_seq_attr (start, stop, step) c))).

(** The four host calls that set them, each after the line that logs it. *)
Definition attribute_events (cam : positive) (path : string) (start stop step : Z)
  : list event :=
  [ Log DEBUG "setCameraSequenceAttr: %s, %d, %d, %d"
        [LCam cam; LInt start; LInt stop; LInt step];
    Tde4 (setCameraSequenceAttr cam start stop step);
    Log DEBUG "setCameraFrameOffset: %s, %d" [LCam cam; LInt start];
    Tde4 (setCameraFrameOffset cam start);
    Log DEBUG "setCameraFrameRangeCalculationFlag: %s, 1" [LCam cam];
    Tde4 (setCameraFrameRangeCalculationFlag cam 1);
    Log DEBUG "setCameraPath: %s, %s" [LCam cam; LStr path];
    Tde4 (setCameraPath cam path) ].

(** What [tde4.getCameraType] returns for [cam]. *)
Definition camera_type (w : world) (cam : positive) : string :=
  match tde4.lookup cam (cameras w) with
  | Some c => cam_type c
  | None => ""
  end.

(** The cameras that the import assigns the sequence to: those selected in
    the host that are sequence cameras, in the host's order. *)
Definition selected_sequence_cameras (w : world) : list positive :=
  filter (fun cam => String.eqb (camera_type w cam) "SEQUENCE")
         (map cam_id (filter cam_selected (cameras w))).

(** The host is not asked to rename [cam] by any of [evs]. *)
Definition not_renamed (cam : positive) (evs : list event) : Prop :=
  forall n, ~ In (Tde4 (setCameraName cam n)) evs.

(** The attributes of the sequence are those of the camera [c]. *)
Definition has_attributes (path : string) (start stop step : Z) (c : camera)
  : Prop :=
  cam_seq_attr c = (start, stop, step) /\ cam_frame_offset c = start /\
  cam_frame_range_calc c = 1%Z /\ cam_path c = path.

(** What holds between the turns of the loop that started in [ws];
    [visited] says whether [cam] has had its turn. *)
Definition loop_invariant (name path : string) (start stop step : Z)
           (ws : world) (cam : positive) (visited : bool) (w : world) : Prop :=
  exists evs,
    trace w = (trace ws ++ evs)%list /\
    (forall cam' c, tde4.lookup cam' (cameras ws) = Some c ->
                    exists c', tde4.lookup cam' (cameras w) = Some c') /\
    (forall cam',
        (not_renamed cam' evs /\ current_name w cam' = current_name ws cam') \/
        ((exists n, In (Tde4 (setCameraName cam' n)) evs) /\
         Py.startswith (current_name w cam') name = true)) /\
    (forall cam' n, In (Tde4 (setCameraName cam' n)) evs ->
                    Py.startswith (current_name ws cam') name = false) /\
    (visited = true ->
     (forall c, In (Tde4 c) (attribute_events cam path start stop step) ->
                In (Tde4 c) evs) /\
     exists c', tde4.lookup cam (cameras w) = Some c' /\
                has_attributes path start stop step c').

(** ** The vocabulary of the further properties *)

(** The [n] frames [s], [s + d], [s + 2 d], ... *)
Definition progression (s d : Z) (n : nat) : list Z :=
  map (fun i => (s + Z.of_nat i * d)%Z) (seq 0 n).

(** The character [c] does not occur in [s]. *)
Fixpoint without_char (c : ascii) (s : string) : bool :=
  match s with
  | EmptyString => true
  | String x r => negb (Ascii.eqb x c) && without_char c r
  end.


(** ** Worlds for the examples *)

(** A disk on which [pattern] expands to [files] and every other pattern
    to nothing. *)
Definition disk (pattern : string) (files : list string) : string -> list string :=
  fun p => if String.eqb p pattern then files else [].

(** Such a disk and a project without cameras. *)
Definition world_of_disk (pattern : string) (files : list string) : world :=
  mkWorld (disk pattern files) [] None [].

(** A project with the given cameras and nothing on disk. *)
Definition world_of_cameras (cs : list camera) : world :=
  mkWorld (fun _ => []) cs None [].

(** A sequence camera with default attributes. *)
Definition sequence_camera (id : positive) (n : string) (selected : bool) : camera :=
  mkCamera id n "SEQUENCE" selected (0, 0, 0)%Z 0 0 "".

(** A hook for the shot ["shot010"] whose publish data is a dictionary
    with the template under the key ["path"]. *)
Definition shot_hook : Loader.hook :=
  Loader.mkHook (Loader.mkApp "shot010")
    (fun data =>
       match data with
       | PDict [("path", PStr p)] => Return p
       | _ => Raise (HostError "no path in the publish data")
       end).

(** The action that imports the sequence of a template. *)
Definition import_of (template : string) : Loader.action :=
  Loader.mkAction "import_image_seq" (PDict [("path", PStr template)]) (PDict []).

(** Three frames of ["/seq/shot.%04d.jpg"] on disk, nothing else, and one
    selected sequence camera. *)
Definition shot_world : world :=
  mkWorld (disk "/seq/shot.*.jpg"
             ["/seq/shot.1001.jpg"; "/seq/shot.1002.jpg"; "/seq/shot.1003.jpg"])
          [sequence_camera 1 "plate" true] None [].

(** Two selected sequence cameras, one of them named after the shot
    already, and a third camera that is not selected. *)
Definition two_camera_world : world :=
  mkWorld (disk "/seq/shot.*.jpg"
             ["/seq/shot.1001.jpg"; "/seq/shot.1002.jpg"; "/seq/shot.1003.jpg"])
          [sequence_camera 1 "shot010_main" true;
           sequence_camera 2 "plate" true;
           sequence_camera 3 "shot010" false] None [].

(** * Properties *)

(** ** Lists of integers: sorting, minimum, maximum *)

Section SortedFacts.

Lemma insert_perm (x : Z) (l : list Z) : Permutation (Py.insert x l) (x :: l).
Proof.
  induction l as [|y r IH]; simpl.
  - reflexivity.
  - destruct (x <=? y)%Z.
    + reflexivity.
    + rewrite IH. apply perm_swap.
Qed.

Lemma sorted_perm (l : list Z) : Permutation (Py.sorted l) l.
Proof.
  induction l as [|x r IH]; simpl.
  - reflexivity.
  - rewrite insert_perm. now constructor.
Qed.

Lemma insert_sorted (x : Z) (l : list Z) :
  Sorted Z.le l -> Sorted Z.le (Py.insert x l).
Proof.
  induction 1 as [|y r Hr IH Hd]; simpl.
  - repeat constructor.
  - destruct (x <=? y)%Z eqn:E.
    + apply Z.leb_le in E. repeat constructor; assumption.
    + apply Z.leb_gt in E. constructor; [assumption|].
      destruct r as [|z r']; simpl.
      * constructor. lia.
      * inversion Hd; subst.
        destruct (x <=? z)%Z; constructor; lia.
Qed.

Lemma sorted_Sorted (l : list Z) : Sorted Z.le (Py.sorted l).
Proof.
  induction l as [|x r IH]; simpl.
  - constructor.
  - now apply insert_sorted.
Qed.

Lemma sorted_length (l : list Z) : List.length (Py.sorted l) = List.length l.
Proof. apply Permutation_length, sorted_perm. Qed.

Lemma min_from_le (l : list Z) (x : Z) : (Py.min_from x l <= x)%Z.
Proof.
  unfold Py.min_from. revert x.
  induction l as [|y r IH]; intro x; simpl; [lia|].
  specialize (IH (Z.min x y)). lia.
Qed.

Lemma min_from_spec (l : list Z) (x : Z) :
  In (Py.min_from x l) (x :: l) /\
  forall y, In y (x :: l) -> (Py.min_from x l <= y)%Z.
Proof.
  unfold Py.min_from. revert x.
  induction l as [|a r IH]; intro x; simpl.
  - split; [now left|]. intros y [<-|[]]. lia.
  - destruct (IH (Z.min x a)) as [Hin Hle]. split.
    + destruct Hin as [Hin|Hin]; [|now right; right].
      rewrite <- Hin.
      destruct (Z.min_spec x a) as [[_ E]|[_ E]]; rewrite E; auto.
    + intros y [<-|[<-|Hy]].
      * specialize (Hle (Z.min x a) (or_introl eq_refl)). lia.
      * specialize (Hle (Z.min x a) (or_introl eq_refl)). lia.
      * apply Hle. now right.
Qed.

Lemma max_from_spec (l : list Z) (x : Z) :
  In (Py.max_from x l) (x :: l) /\
  forall y, In y (x :: l) -> (y <= Py.max_from x l)%Z.
Proof.
  unfold Py.max_from. revert x.
  induction l as [|a r IH]; intro x; simpl.
  - split; [now left|]. intros y [<-|[]]. lia.
  - destruct (IH (Z.max x a)) as [Hin Hle]. split.
    + destruct Hin as [Hin|Hin]; [|now right; right].
      rewrite <- Hin.
      destruct (Z.max_spec x a) as [[_ E]|[_ E]]; rewrite E; auto.
    + intros y [<-|[<-|Hy]].
      * specialize (Hle (Z.max x a) (or_introl eq_refl)). lia.
      * specialize (Hle (Z.max x a) (or_introl eq_refl)). lia.
      * apply Hle. now right.
Qed.

End SortedFacts.

Lemma py_min_spec (l : list Z) :
  l <> [] -> exists m, py_min l = Return m /\ is_minimum m l.
Proof.
  destruct l as [|x r]; [congruence|]. intros _.
  exists (Py.min_from x r). split; [reflexivity|]. apply min_from_spec.
Qed.

Lemma py_max_spec (l : list Z) :
  l <> [] -> exists m, py_max l = Return m /\ is_maximum m l.
Proof.
  destruct l as [|x r]; [congruence|]. intros _.
  exists (Py.max_from x r). split; [reflexivity|]. apply max_from_spec.
Qed.

(** ** [itertools.groupby] yields the maximal runs of equal keys *)

Section GroupbyFacts.
Context {A : Type} (key : A -> Z).

Local Abbreviation groupby := (Py.groupby Z.eqb key).

Lemma groupby_cons (x : A) (r : list A) :
  exists g gs, groupby (x :: r) = (key x, x :: g) :: gs.
Proof.
  simpl. destruct (groupby r) as [|[k g] gs].
  - now exists [], [].
  - destruct (key x =? k)%Z; eauto.
Qed.

Lemma groupby_nil (l : list A) : groupby l = [] -> l = [].
Proof.
  destruct l as [|x r]; [reflexivity|].
  destruct (groupby_cons x r) as (g & gs & E). rewrite E. discriminate.
Qed.

(** The groups, put end to end, are the list. *)
Lemma groupby_concat (l : list A) : List.concat (map snd (groupby l)) = l.
Proof.
  induction l as [|x r IH]; simpl; [reflexivity|].
  destruct (groupby r) as [|[k g] gs] eqn:E.
  - apply groupby_nil in E. now subst.
  - destruct (key x =? k)%Z; simpl in *; now rewrite IH.
Qed.

(** Every group is non-empty and all its elements have the group's key. *)
Lemma groupby_groups (l : list A) :
  Forall (fun kg => snd kg <> [] /\ Forall (fun x => key x = fst kg) (snd kg))
         (groupby l).
Proof.
  induction l as [|x r IH]; simpl; [constructor|].
  destruct (groupby r) as [|[k g] gs] eqn:E.
  - repeat constructor. discriminate.
  - inversion IH as [|? ? [_ Hg] Hgs]; subst. simpl in Hg.
    destruct (key x =? k)%Z eqn:Ek.
    + apply Z.eqb_eq in Ek. constructor; [|assumption]. simpl. split.
      * discriminate.
      * constructor; [reflexivity|]. now rewrite Ek.
    + constructor; [|assumption]. simpl. split; [discriminate|].
      now repeat constructor.
Qed.

(** Two groups that follow each other have different keys: the runs are
    maximal. *)
Lemma groupby_maximal (l : list A) (i : nat) :
  let keys := map fst (groupby l) in
  (S i < List.length keys)%nat -> nth i keys 0%Z <> nth (S i) keys 0%Z.
Proof.
  revert i. induction l as [|x r IH]; intros i; simpl.
  - lia.
  - destruct (groupby r) as [|[k g] gs] eqn:E; simpl.
    + lia.
    + simpl in IH. destruct (key x =? k)%Z eqn:Ek; simpl.
      * apply Z.eqb_eq in Ek. intros Hi.
        destruct i as [|i].
        -- rewrite Ek. apply (IH 0%nat). simpl in *. lia.
        -- apply (IH (S i)). simpl in *. lia.
      * apply Z.eqb_neq in Ek. intros Hi.
        destruct i as [|i]; [exact Ek|].
        apply (IH i). lia.
Qed.

(** One group at most exactly when all keys are the same. *)
Lemma groupby_le_1 (l : list A) :
  (List.length (groupby l) <= 1)%nat <->
  (forall x y, In x l -> In y l -> key x = key y).
Proof.
  induction l as [|x r IH]; simpl.
  - split; [intros _ ? ? []|lia].
  - destruct (groupby r) as [|[k g] gs] eqn:E.
    + apply groupby_nil in E. subst. split; [|simpl; lia].
      intros _ a b [<-|[]] [<-|[]]. reflexivity.
    + assert (Hk : exists y r', r = y :: r' /\ k = key y).
      { destruct r as [|y r']; [discriminate|].
        destruct (groupby_cons y r') as (g' & gs' & E').
        rewrite E' in E. inversion E. eauto. }
      destruct Hk as (y & r' & -> & ->).
      destruct (key x =? key y)%Z eqn:Ek.
      * apply Z.eqb_eq in Ek. simpl in *. rewrite IH. split.
        -- intros H a b [<-|Ha] [<-|Hb]; auto.
           ++ rewrite Ek. apply H; [now left|assumption].
           ++ rewrite Ek. apply H; [assumption|now left].
        -- intros H a b Ha Hb. apply H; now right.
      * apply Z.eqb_neq in Ek. simpl. split; [lia|].
        intros H. exfalso. apply Ek. apply H; [now left|now right; left].
Qed.

(** All keys equal to [d] in a non-empty list: one group, of key [d]. *)
Lemma groupby_constant (l : list A) (d : Z) :
  l <> [] -> (forall x, In x l -> key x = d) ->
  map fst (groupby l) = [d].
Proof.
  intros Hne Hd.
  assert (Hlen : (List.length (groupby l) <= 1)%nat).
  { apply groupby_le_1. intros x y Hx Hy. now rewrite (Hd x), (Hd y). }
  destruct l as [|x r]; [congruence|].
  destruct (groupby_cons x r) as (g & gs & E). rewrite E in *.
  destruct gs; simpl in *; [|lia].
  rewrite (Hd x); auto.
Qed.

(** More than one group exactly when two different keys occur. *)
Lemma groupby_ge_2 (l : list A) :
  (2 <= List.length (groupby l))%nat <->
  (exists x y, In x l /\ In y l /\ key x <> key y).
Proof.
  split.
  - intros H.
    assert (Hex : Exists (fun x => key x <> key (hd x l)) l \/
                  Forall (fun x => key x = key (hd x l)) l).
    { destruct l as [|a r]; [now right|]. simpl.
      destruct (Exists_dec (fun x => key x <> key a) (a :: r)) as [He|Hn].
      - intros x. destruct (Z.eq_dec (key x) (key a)); [right|left]; tauto.
      - now left.
      - right. apply Forall_forall. intros x Hx.
        destruct (Z.eq_dec (key x) (key a)) as [|Hd]; [assumption|].
        exfalso. apply Hn. apply Exists_exists. eauto. }
    destruct Hex as [He|Hf].
    + apply Exists_exists in He. destruct He as (x & Hx & Hd).
      destruct l as [|a r]; [destruct Hx|]. simpl in Hd.
      exists x, a. repeat split; auto. now left.
    + exfalso.
      assert ((List.length (groupby l) <= 1)%nat); [|lia].
      apply groupby_le_1. intros x y Hx Hy.
      rewrite Forall_forall in Hf.
      destruct l as [|a r]; [destruct Hx|]. simpl in Hf.
      now rewrite (Hf x Hx), (Hf y Hy).
  - intros (x & y & Hx & Hy & Hd).
    destruct (le_lt_dec (List.length (groupby l)) 1) as [Hle|]; [|lia].
    exfalso. apply Hd. revert Hx Hy. now apply groupby_le_1.
Qed.

End GroupbyFacts.

(** ** The patterns: what a search finds *)

Lemma str_app_assoc (a b c : string) : (a ++ b) ++ c = a ++ b ++ c.
Proof. induction a as [|x a IH]; simpl; [reflexivity|now rewrite IH]. Qed.

Section SearchFacts.
Variable opening : string.
Variable closing : ascii.
Hypothesis closing_not_digit : Py.is_digit closing = false.

Lemma strip_prefix_app (p s : string) : Re.strip_prefix p (p ++ s) = Some s.
Proof.
  induction p as [|a p IH]; simpl; [reflexivity|].
  now rewrite Ascii.eqb_refl.
Qed.

Lemma strip_prefix_Some (p s r : string) :
  Re.strip_prefix p s = Some r -> s = p ++ r.
Proof.
  revert s. induction p as [|a p IH]; intros s; simpl.
  - now intros [= ->].
  - destruct s as [|b s]; [discriminate|].
    destruct (Ascii.eqb a b) eqn:E; [|discriminate].
    apply Ascii.eqb_eq in E. subst b. intros H. now rewrite (IH _ H).
Qed.

Lemma span_digits_Some (s ds rest : string) :
  Py.span_digits s = (ds, rest) -> s = ds ++ rest /\ all_digits ds = true.
Proof.
  revert ds rest. induction s as [|c r IH]; intros ds rest; simpl.
  - intros [= <- <-]. now split.
  - destruct (Py.is_digit c) eqn:E.
    + destruct (Py.span_digits r) as [ds' rest'].
      intros [= <- <-]. destruct (IH _ _ eq_refl) as [-> H].
      simpl. now rewrite E, H.
    + intros [= <- <-]. now split.
Qed.

Lemma span_digits_app (ds post : string) :
  all_digits ds = true ->
  Py.span_digits (ds ++ String closing post) = (ds, String closing post).
Proof.
  induction ds as [|c r IH]; simpl.
  - now rewrite closing_not_digit.
  - intros H. apply andb_true_iff in H. destruct H as [Hc Hr].
    now rewrite Hc, (IH Hr).
Qed.

Lemma match_at_Some (s g : string) :
  Re.match_at opening closing s = Some g ->
  g <> "" /\ all_digits g = true /\
  exists post, s = opening ++ g ++ String closing post.
Proof.
  unfold Re.match_at.
  destruct (Re.strip_prefix opening s) as [r|] eqn:Ep; [|discriminate].
  destruct (Py.span_digits r) as [ds rest] eqn:Es.
  destruct ds as [|c ds]; [discriminate|].
  destruct rest as [|e rest]; [discriminate|].
  destruct (Ascii.eqb e closing) eqn:Ee; [|discriminate].
  apply Ascii.eqb_eq in Ee. subst e. intros [= <-].
  apply strip_prefix_Some in Ep. apply span_digits_Some in Es.
  destruct Es as [-> Hd]. repeat split; [discriminate|assumption|].
  now exists rest.
Qed.

Lemma match_at_intro (ds post : string) :
  ds <> "" -> all_digits ds = true ->
  Re.match_at opening closing (opening ++ ds ++ String closing post) = Some ds.
Proof.
  intros Hne Hd. unfold Re.match_at.
  rewrite strip_prefix_app, (span_digits_app _ _ Hd).
  destruct ds; [congruence|]. now rewrite Ascii.eqb_refl.
Qed.

Lemma search_Some (s g : string) :
  Re.search opening closing s = Some g ->
  g <> "" /\ all_digits g = true /\
  exists pre post, s = pre ++ opening ++ g ++ String closing post.
Proof.
  induction s as [|c r IH]; simpl.
  - destruct (Re.match_at opening closing "") eqn:E; [|discriminate].
    intros [= ->]. destruct (match_at_Some _ _ E) as (H1 & H2 & post & H3).
    repeat split; auto. now exists "", post.
  - destruct (Re.match_at opening closing (String c r)) eqn:E.
    + intros [= ->]. destruct (match_at_Some _ _ E) as (H1 & H2 & post & H3).
      repeat split; auto. now exists "", post.
    + intros H. destruct (IH H) as (H1 & H2 & pre & post & ->).
      repeat split; auto. now exists (String c pre), post.
Qed.

Lemma search_intro (pre ds post : string) :
  ds <> "" -> all_digits ds = true ->
  exists g, Re.search opening closing
              (pre ++ opening ++ ds ++ String closing post) = Some g.
Proof.
  intros Hne Hd. induction pre as [|c pre IH].
  - simpl append at 1.
    assert (E := match_at_intro ds post Hne Hd).
    destruct (opening ++ ds ++ String closing post) eqn:Es;
      simpl; rewrite E; eauto.
  - simpl append. simpl.
    destruct (Re.match_at opening closing
                (String c (pre ++ opening ++ ds ++ String closing post)));
      eauto.
Qed.

(** A search fails exactly on the strings without an occurrence. *)
Lemma search_None_iff (s : string) :
  Re.search opening closing s = None <->
  ~ has_digits_between opening closing s.
Proof.
  split.
  - intros H (pre & ds & post & Hne & Hd & ->).
    destruct (search_intro pre ds post Hne Hd) as [g Hg]. congruence.
  - intros H. destruct (Re.search opening closing s) as [g|] eqn:E;
      [|reflexivity].
    exfalso. apply H. destruct (search_Some _ _ E) as (H1 & H2 & pre & post & ->).
    now exists pre, g, post.
Qed.

End SearchFacts.

Lemma frame_spec_search_None_iff (path : string) :
  Loader.frame_spec_search path = None <-> ~ has_placeholder path.
Proof.
  unfold Loader.frame_spec_search, has_placeholder.
  rewrite <- (search_None_iff "%0" "d" eq_refl).
  destruct (Re.search "%0" "d" path); split; congruence.
Qed.

Lemma frame_spec_search_Some (path spec width : string) :
  Loader.frame_spec_search path = Some (spec, width) ->
  spec = "%0" ++ width ++ "d" /\ width <> "" /\ all_digits width = true /\
  exists pre post, path = pre ++ spec ++ post.
Proof.
  unfold Loader.frame_spec_search.
  destruct (Re.search "%0" "d" path) as [ds|] eqn:E; [|discriminate].
  intros [= <- <-].
  destruct (search_Some _ _ _ _ E) as (H1 & H2 & pre & post & ->).
  repeat split; auto. exists pre, post.
  f_equal. simpl. do 2 f_equal.
  change (String "d" post) with ("d" ++ post). now rewrite str_app_assoc.
Qed.

Lemma has_placeholder_search (path : string) :
  has_placeholder path ->
  exists spec width, Loader.frame_spec_search path = Some (spec, width).
Proof.
  intros H. destruct (Loader.frame_spec_search path) as [[spec width]|] eqn:E.
  - eauto.
  - apply frame_spec_search_None_iff in E. contradiction.
Qed.

Lemma frame_number_search_None_iff (path : string) :
  Loader.frame_number_search path = None <-> ~ has_dotted_number path.
Proof. apply (search_None_iff "." "." eq_refl). Qed.

(** ** [str.replace]: every occurrence, from the left, without overlap *)

Lemma startswith_split (s p : string) :
  Py.startswith s p = true <-> exists r, s = p ++ r.
Proof.
  revert s. induction p as [|a p IH]; intros s; simpl.
  - split; [intros _; now exists s|now destruct s].
  - destruct s as [|b s]; simpl.
    + split; [discriminate|]. intros [r E]. discriminate E.
    + rewrite andb_true_iff, IH, Ascii.eqb_eq. split.
      * intros [-> [r ->]]. now exists r.
      * intros [r E]. injection E as -> ->. split; [reflexivity|now exists r].
Qed.

Lemma replace_from_skip (old new a s : string) :
  Py.replace_from old new (String.length a) (a ++ s) =
  Py.replace_from old new 0 s.
Proof. induction a as [|x a IH]; simpl; [reflexivity|exact IH]. Qed.

(** Where [old] starts the string it is replaced, and the replacement
    goes on after it. *)
Lemma replace_occurrence (old new rest : string) :
  old <> "" ->
  Py.replace (old ++ rest) old new = new ++ Py.replace rest old new.
Proof.
  intros Hne. unfold Py.replace. destruct old as [|c old]; [congruence|].
  assert (H : Py.startswith (String c old ++ rest) (String c old) = true).
  { apply startswith_split. now exists rest. }
  cbn [append Py.replace_from] in *. rewrite H.
  replace (String.length (String c old) - 1)%nat with (String.length old)
    by (cbn [String.length]; lia).
  now rewrite replace_from_skip.
Qed.

(** Where it does not, the first character stays. *)
Lemma replace_no_occurrence (c : ascii) (r old new : string) :
  Py.startswith (String c r) old = false ->
  Py.replace (String c r) old new = String c (Py.replace r old new).
Proof. intros H. unfold Py.replace. cbn [Py.replace_from]. now rewrite H. Qed.

(** ** Consecutive frames and their differences *)

Lemma consecutive_cons (x y : Z) (r : list Z) :
  consecutive (x :: y :: r) = (x, y) :: consecutive (y :: r).
Proof. reflexivity. Qed.

Lemma group_steps_differences (l : list Z) :
  Loader.group_steps l = map fst (Py.groupby Z.eqb (fun d => d) (differences l)).
Proof.
  unfold Loader.group_steps, differences, consecutive.
  induction (Py.izip (Py.but_last l) (Py.from_1 l)) as [|p r IH]; simpl;
    [reflexivity|].
  destruct (Py.groupby Z.eqb Loader.frames_diff r) as [|[k g] gs];
    destruct (Py.groupby Z.eqb (fun d => d) (map Loader.frames_diff r))
      as [|[k' g'] gs']; simpl in *; try discriminate; [reflexivity|].
  injection IH as -> IH.
  destruct (Loader.frames_diff p =? k')%Z; simpl; now rewrite IH.
Qed.

Lemma differences_length (l : list Z) :
  List.length (differences l) = (List.length l - 1)%nat.
Proof.
  unfold differences. rewrite length_map.
  induction l as [|x [|y r] IH]; try reflexivity.
  rewrite consecutive_cons. simpl List.length in *. lia.
Qed.

Lemma differences_nth (l : list Z) (i : nat) :
  (S i < List.length l)%nat ->
  nth i (differences l) 0%Z = (nth (S i) l 0 - nth i l 0)%Z.
Proof.
  unfold differences. revert i.
  induction l as [|x [|y r] IH]; intros i Hi; simpl in Hi; try lia.
  rewrite consecutive_cons. destruct i as [|i].
  - reflexivity.
  - change (nth i (map Loader.frames_diff (consecutive (y :: r))) 0%Z =
            (nth (S i) (y :: r) 0 - nth i (y :: r) 0)%Z).
    apply IH. simpl. lia.
Qed.

Lemma progression_differences (d : Z) (l : list Z) :
  arithmetic_progression d l <-> forall x, In x (differences l) -> x = d.
Proof.
  split.
  - intros H x Hx. apply (In_nth _ _ 0%Z) in Hx.
    destruct Hx as (i & Hi & <-). rewrite differences_length in Hi.
    rewrite differences_nth by lia. apply H. lia.
  - intros H i Hi. rewrite <- differences_nth by assumption.
    apply H, nth_In. rewrite differences_length. lia.
Qed.

Lemma group_steps_progression (d : Z) (l : list Z) :
  (2 <= List.length l)%nat -> arithmetic_progression d l ->
  Loader.group_steps l = [d].
Proof.
  intros Hlen Hap. rewrite group_steps_differences.
  apply (groupby_constant (fun d => d)).
  - intros E. apply (f_equal (@List.length Z)) in E.
    rewrite differences_length in E. simpl in E. lia.
  - now apply progression_differences.
Qed.

Lemma group_steps_short (l : list Z) :
  (List.length l <= 1)%nat -> Loader.group_steps l = [].
Proof. destruct l as [|x [|y r]]; simpl; try reflexivity; lia. Qed.

(** ** The resolver [get_hash_path_and_range_info_from_seq] *)

Section Resolver.
Variables (path spec width : string) (w : world).
Hypothesis placeholder : Loader.frame_spec_search path = Some (spec, width).

Let files := matched_files w path spec.
Let numbers := Loader.get_frame_numbers files.
Let w' := emit (Glob (glob_pattern path spec)) w.

Lemma resolve_no_file :
  files = [] ->
  Loader.get_hash_path_and_range_info_from_seq path w =
  (Raise (new_FileExistenceError path), w').
Proof.
  intros E. unfold Loader.get_hash_path_and_range_info_from_seq.
  rewrite placeholder. unfold bind, Loader.glob.
  fold (glob_pattern path spec). fold (matched_files w path spec).
  fold files. now rewrite E.
Qed.

Lemma resolve_files :
  files <> [] ->
  Loader.get_hash_path_and_range_info_from_seq path w =
  if (1 <? List.length (Loader.group_steps numbers))%nat
  then (Raise (ValueError "Inconsistent frame steps"), w')
  else
    match py_min numbers, py_max numbers, py_item0 (Loader.group_steps numbers) with
    | Return start, Return stop, Return step =>
        (Return (hash_path path spec width, start, stop, step), w')
    | Raise e, _, _ => (Raise e, w')
    | Return _, Raise e, _ => (Raise e, w')
    | Return _, Return _, Raise e => (Raise e, w')
    end.
Proof.
  intros Hne. unfold Loader.get_hash_path_and_range_info_from_seq.
  rewrite placeholder. unfold bind, Loader.glob.
  fold (glob_pattern path spec). fold (matched_files w path spec).
  fold files. subst numbers.
  destruct files as [|f fs]; [congruence|].
  destruct (1 <? _)%nat; [reflexivity|].
  unfold lift, ret, hash_path.
  destruct (py_min _); [|reflexivity].
  destruct (py_max _); [|reflexivity].
  destruct (py_item0 _); reflexivity.
Qed.

End Resolver.

Lemma resolve_search_fails (path : string) (w : world) :
  Loader.frame_spec_search path = None ->
  Loader.get_hash_path_and_range_info_from_seq path w =
    (Return (path, 1, 1, 1)%Z, w).
Proof.
  intros H. unfold Loader.get_hash_path_and_range_info_from_seq. now rewrite H.
Qed.

Lemma collect_no_dotted_number (files : list string) :
  Forall (fun f => ~ has_dotted_number f) files ->
  Loader.collect_frame_numbers files = [].
Proof.
  induction 1 as [|f fs Hf _ IH]; simpl; [reflexivity|].
  apply frame_number_search_None_iff in Hf. now rewrite Hf.
Qed.

Lemma frame_numbers_length (files : list string) :
  (List.length (Loader.get_frame_numbers files) <= List.length files)%nat.
Proof.
  unfold Loader.get_frame_numbers. rewrite sorted_length.
  induction files as [|f fs IH]; simpl; [lia|].
  destruct (Loader.frame_number_search f); simpl; lia.
Qed.

Lemma length_ge_1_ne {A} (l : list A) : (1 <= List.length l)%nat -> l <> [].
Proof. destruct l; simpl; [lia|discriminate]. Qed.

(** C1 (as amended): a template with a placeholder, at least two frame
    numbers extracted from the files it matches, these numbers in ascending
    order each [d] after the one before: the resolver returns the path with
    the placeholder replaced by [N] hash characters, the least frame number
    as start, the greatest as end, and [d] as step. *)
Theorem resolve_progression (path spec width : string) (w : world) (d : Z) :
  Loader.frame_spec_search path = Some (spec, width) ->
  (2 <= List.length (Loader.get_frame_numbers (matched_files w path spec)))%nat ->
  arithmetic_progression d (Loader.get_frame_numbers (matched_files w path spec)) ->
  resolves_to_progression path spec width w d.
Proof.
  intros Hs Hlen Hap. unfold resolves_to_progression, outcome.
  assert (Hfiles : matched_files w path spec <> []).
  { apply length_ge_1_ne.
    pose proof (frame_numbers_length (matched_files w path spec)). lia. }
  rewrite (resolve_files _ _ _ _ Hs Hfiles).
  rewrite (group_steps_progression d _ Hlen Hap). simpl.
  assert (Hne : Loader.get_frame_numbers (matched_files w path spec) <> []).
  { apply length_ge_1_ne. lia. }
  destruct (py_min_spec _ Hne) as (start & -> & Hmin).
  destruct (py_max_spec _ Hne) as (stop & -> & Hmax).
  now exists start, stop.
Qed.

(** The four frames 1001 to 1004 of ["/seq/shot.%04d.jpg"]. *)
Lemma resolve_progression_witness :
  resolves_to_progression "/seq/shot.%04d.jpg" "%04d" "4"
    (world_of_disk "/seq/shot.*.jpg"
       ["/seq/shot.1003.jpg"; "/seq/shot.1001.jpg";
        "/seq/shot.1004.jpg"; "/seq/shot.1002.jpg"]) 1.
Proof.
  apply resolve_progression.
  - reflexivity.
  - vm_compute. lia.
  - intros [|[|[|i]]] Hi; vm_compute in Hi |- *; try reflexivity; lia.
Defined.

(** The frames 1001, 1003 and 1005: step 2. *)
Example resolve_step_2 :
  outcome (Loader.get_hash_path_and_range_info_from_seq "/seq/shot.%04d.jpg")
          (world_of_disk "/seq/shot.*.jpg"
             ["/seq/shot.1001.jpg"; "/seq/shot.1003.jpg"; "/seq/shot.1005.jpg"]) =
    Return ("/seq/shot.####.jpg", 1001, 1005, 2)%Z.
Proof. reflexivity. Qed.

(** C1 as written asks for two matched files, not for two frame numbers.
    With a second file that has no frame number, the single number 1001 is
    a progression of whatever step [d], and the resolver raises instead of
    returning a descriptor of step [d]. *)
Lemma resolve_progression_two_files_counterexample :
  let path := "/seq/shot.%04d.jpg" in
  let w := world_of_disk "/seq/shot.*.jpg"
             ["/seq/shot.1001.jpg"; "/seq/shot.tmp.jpg"] in
  Loader.frame_spec_search path = Some ("%04d", "4") /\
  (2 <= List.length (matched_files w path "%04d"))%nat /\
  Loader.get_frame_numbers (matched_files w path "%04d") = [1001%Z] /\
  outcome (Loader.get_hash_path_and_range_info_from_seq path) w =
    Raise (IndexError "list index out of range") /\
  forall d,
    arithmetic_progression d
      (Loader.get_frame_numbers (matched_files w path "%04d")) /\
    ~ resolves_to_progression path "%04d" "4" w d.
Proof.
  split; [reflexivity|]. split; [vm_compute; lia|].
  split; [reflexivity|]. split; [reflexivity|].
  intros d. split.
  - intros i Hi. vm_compute in Hi. lia.
  - intros (start & stop & H & _). vm_compute in H. discriminate H.
Qed.

Lemma group_steps_runs (numbers : list Z) :
  List.length (Loader.group_steps numbers) = List.length (runs numbers).
Proof. rewrite group_steps_differences. apply length_map. Qed.

(** C2: a template with a placeholder that matches at least two files: the
    resolver fails with the [ValueError] of the step validation exactly when
    the differences between consecutive sorted frame numbers fall into two
    or more maximal runs of equal difference, which is to say when more
    than one step value occurs. *)
Theorem resolve_inconsistent_steps (path spec width : string) (w : world) :
  Loader.frame_spec_search path = Some (spec, width) ->
  (2 <= List.length (matched_files w path spec))%nat ->
  let numbers := Loader.get_frame_numbers (matched_files w path spec) in
  (outcome (Loader.get_hash_path_and_range_info_from_seq path) w =
     Raise (ValueError "Inconsistent frame steps")
   <-> (2 <= List.length (runs numbers))%nat) /\
  ((2 <= List.length (runs numbers))%nat <-> several_steps numbers).
Proof.
  intros Hs Hlen numbers. split.
  - assert (Hfiles : matched_files w path spec <> []).
    { apply length_ge_1_ne. lia. }
    unfold outcome. rewrite (resolve_files _ _ _ _ Hs Hfiles).
    fold numbers. rewrite group_steps_runs.
    destruct (1 <? List.length (runs numbers))%nat eqn:E.
    + apply Nat.ltb_lt in E. simpl. split; [lia|reflexivity].
    + apply Nat.ltb_ge in E. split; [|lia]. intros H. exfalso.
      clearbody numbers.
      destruct numbers as [|x r]; simpl in H; [discriminate H|].
      destruct (Loader.group_steps (x :: r)); simpl in H; discriminate H.
  - unfold runs, several_steps. rewrite (groupby_ge_2 (fun d => d)).
    reflexivity.
Qed.

(** The frames 1001, 1002 and 1004: differences 1 and 2. *)
Lemma resolve_inconsistent_steps_witness :
  let w := world_of_disk "/seq/shot.*.jpg"
             ["/seq/shot.1001.jpg"; "/seq/shot.1002.jpg"; "/seq/shot.1004.jpg"] in
  outcome (Loader.get_hash_path_and_range_info_from_seq "/seq/shot.%04d.jpg") w =
    Raise (ValueError "Inconsistent frame steps") /\
  several_steps (Loader.get_frame_numbers
                   (matched_files w "/seq/shot.%04d.jpg" "%04d")).
Proof.
  intros w.
  destruct (resolve_inconsistent_steps "/seq/shot.%04d.jpg" "%04d" "4" w)
    as [[_ H1] [H2 _]].
  - reflexivity.
  - vm_compute. lia.
  - assert (Hruns : (2 <= List.length
                       (runs (Loader.get_frame_numbers
                          (matched_files w "/seq/shot.%04d.jpg" "%04d"))))%nat).
    { vm_compute. lia. }
    split; [exact (H1 Hruns)|exact (H2 Hruns)].
Defined.

(** The frames 1, 2, 3, 5 and 7: two runs of two differences each. *)
Example resolve_runs_of_equal_length :
  let w := world_of_disk "/seq/shot.*.jpg"
             ["/seq/shot.1.jpg"; "/seq/shot.2.jpg"; "/seq/shot.3.jpg";
              "/seq/shot.5.jpg"; "/seq/shot.7.jpg"] in
  map snd (runs (Loader.get_frame_numbers
                   (matched_files w "/seq/shot.%04d.jpg" "%04d"))) =
    [[1; 1]; [2; 2]]%Z /\
  outcome (Loader.get_hash_path_and_range_info_from_seq "/seq/shot.%04d.jpg") w =
    Raise (ValueError "Inconsistent frame steps").
Proof. split; reflexivity. Qed.

(** C3: a template with a placeholder that matches no file: the resolver
    raises [FileExistenceError] with [ENOENT], and the file name the error
    carries is the template as it was given, placeholder included; the
    pattern expansion is all that has happened. *)
Theorem resolve_no_match (path spec width : string) (w : world) :
  Loader.frame_spec_search path = Some (spec, width) ->
  matched_files w path spec = [] ->
  Loader.get_hash_path_and_range_info_from_seq path w =
    (Raise (new_FileExistenceError path),
     emit (Glob (glob_pattern path spec)) w) /\
  (exists strerror,
      new_FileExistenceError path = FileExistenceError ENOENT strerror path) /\
  has_placeholder path.
Proof.
  intros Hs Hfiles. split; [|split].
  - now rewrite (resolve_no_file _ _ _ _ Hs Hfiles).
  - eexists. reflexivity.
  - destruct (frame_spec_search_Some _ _ _ Hs) as (-> & Hne & Hd & pre & post & E).
    exists pre, width, post. repeat split; auto.
    rewrite E. now rewrite !str_app_assoc.
Qed.

Lemma resolve_no_match_witness :
  Loader.get_hash_path_and_range_info_from_seq "/seq/shot.%04d.jpg"
    (world_of_disk "/seq/shot.*.jpg" []) =
    (Raise (new_FileExistenceError "/seq/shot.%04d.jpg"),
     emit (Glob "/seq/shot.*.jpg") (world_of_disk "/seq/shot.*.jpg" [])) /\
  (exists strerror,
      new_FileExistenceError "/seq/shot.%04d.jpg" =
      FileExistenceError ENOENT strerror "/seq/shot.%04d.jpg") /\
  has_placeholder "/seq/shot.%04d.jpg".
Proof.
  apply (resolve_no_match "/seq/shot.%04d.jpg" "%04d" "4"); reflexivity.
Defined.

(** C4: a template without a placeholder: the resolver returns the path as
    it is with start, end and step 1, and leaves the world as it was: no
    pattern has been expanded. *)
Theorem resolve_no_placeholder (path : string) (w : world) :
  ~ has_placeholder path ->
  Loader.get_hash_path_and_range_info_from_seq path w =
    (Return (path, 1, 1, 1)%Z, w).
Proof.
  intros H. apply resolve_search_fails. now apply frame_spec_search_None_iff.
Qed.

Lemma resolve_no_placeholder_witness :
  Loader.get_hash_path_and_range_info_from_seq "/seq/shot.jpg"
    (world_of_disk "/seq/shot.jpg" ["/seq/shot.jpg"]) =
    (Return ("/seq/shot.jpg", 1, 1, 1)%Z,
     world_of_disk "/seq/shot.jpg" ["/seq/shot.jpg"]).
Proof.
  apply resolve_no_placeholder.
  apply frame_spec_search_None_iff. reflexivity.
Defined.

(** A template that matches one file, with a frame number: no pair of
    consecutive frames, no step collected, and taking the first step
    raises. *)
Lemma resolve_single_frame (path spec width : string) (w : world) (f : string)
      (ds : string) :
  Loader.frame_spec_search path = Some (spec, width) ->
  matched_files w path spec = [f] ->
  Loader.frame_number_search f = Some ds ->
  outcome (Loader.get_hash_path_and_range_info_from_seq path) w =
    Raise (IndexError "list index out of range").
Proof.
  intros Hs Hfiles Hf. unfold outcome.
  rewrite (resolve_files _ _ _ _ Hs) by (rewrite Hfiles; discriminate).
  rewrite Hfiles. unfold Loader.get_frame_numbers. simpl. now rewrite Hf.
Qed.

(** C5: the template ["/seq/shot.%04d.jpg"] with the single file of frame
    1001 on disk: the resolver does not return a descriptor of step 1, it
    raises [IndexError]. *)
Theorem resolve_single_file_raises :
  outcome (Loader.get_hash_path_and_range_info_from_seq "/seq/shot.%04d.jpg")
          (world_of_disk "/seq/shot.*.jpg" ["/seq/shot.1001.jpg"]) =
    Raise (IndexError "list index out of range").
Proof.
  apply (resolve_single_frame _ "%04d" "4" _ "/seq/shot.1001.jpg" "1001");
    reflexivity.
Qed.

(** C9: a template with a placeholder that matches files, none of them
    with digits between two dots: no frame number is extracted, and the
    resolver raises the [ValueError] of [min] on an empty list, which is
    neither [FileExistenceError] nor the error of the step validation. *)
Theorem resolve_no_frame_number (path spec width : string) (w : world) :
  Loader.frame_spec_search path = Some (spec, width) ->
  matched_files w path spec <> [] ->
  Forall (fun f => ~ has_dotted_number f) (matched_files w path spec) ->
  Loader.get_frame_numbers (matched_files w path spec) = [] /\
  exists e,
    outcome (Loader.get_hash_path_and_range_info_from_seq path) w = Raise e /\
    e = ValueError "min() arg is an empty sequence" /\
    (forall errno strerror filename,
        e <> FileExistenceError errno strerror filename) /\
    e <> ValueError "Inconsistent frame steps".
Proof.
  intros Hs Hfiles Hnone.
  assert (Hnum : Loader.get_frame_numbers (matched_files w path spec) = []).
  { unfold Loader.get_frame_numbers.
    now rewrite (collect_no_dotted_number _ Hnone). }
  split; [assumption|].
  exists (ValueError "min() arg is an empty sequence").
  unfold outcome. rewrite (resolve_files _ _ _ _ Hs Hfiles), Hnum. simpl.
  repeat split; discriminate.
Qed.

Lemma resolve_no_frame_number_witness :
  let w := world_of_disk "/seq/shot.*.jpg"
             ["/seq/shot.final.jpg"; "/seq/shot.v2.jpg"] in
  Loader.get_frame_numbers (matched_files w "/seq/shot.%04d.jpg" "%04d") = [] /\
  exists e,
    outcome (Loader.get_hash_path_and_range_info_from_seq "/seq/shot.%04d.jpg") w
      = Raise e /\
    e = ValueError "min() arg is an empty sequence" /\
    (forall errno strerror filename,
        e <> FileExistenceError errno strerror filename) /\
    e <> ValueError "Inconsistent frame steps".
Proof.
  apply (resolve_no_frame_number "/seq/shot.%04d.jpg" "%04d" "4").
  - reflexivity.
  - vm_compute. discriminate.
  - repeat constructor; apply frame_number_search_None_iff; reflexivity.
Defined.

(** ** The scene operations of the snapshot hook *)

(** C8: ["current_path"] returns what the host reports as the path of the
    open project and changes nothing; ["open"] loads the project at
    [file_path], which becomes the open one, and returns [None]; ["save"]
    saves to the path the host reports, whatever [file_path] is, and
    returns [None]; every operation other than ["current_path"] returns
    [None]. *)
Theorem scene_operation_execute (file_path : string) (w : world) :
  Snapshot.execute "current_path" file_path w = (Return (project_path w), w) /\
  Snapshot.execute "open" file_path w =
    (Return None,
     emit (Tde4 (loadProject file_path)) (with_project_path (Some file_path) w)) /\
  Snapshot.execute "save" file_path w =
    (Return None, emit (Tde4 (saveProject (project_path w))) w) /\
  (forall operation,
      outcome (Snapshot.execute operation file_path) w =
      if String.eqb operation "current_path"
      then Return (project_path w) else Return None).
Proof.
  split; [reflexivity|]. split; [reflexivity|]. split.
  - destruct w; reflexivity.
  - intros operation. unfold outcome, Snapshot.execute.
    destruct (String.eqb operation "current_path"); [reflexivity|].
    destruct (String.eqb operation "open"); [reflexivity|].
    destruct (String.eqb operation "save"); reflexivity.
Qed.

(** ** Running a list of actions *)

Section DispatchFacts.
Variable execute_action : string -> pyval -> pyval -> M unit.

Local Abbreviation run := (Loader.execute_multiple_actions execute_action).
Local Abbreviation dispatch := (dispatch execute_action).

Lemma run_cons (a : Loader.action) (rest : list Loader.action) (w : world) :
  run (a :: rest) w =
  match dispatch a w with
  | (Return _, w') => run rest w'
  | (Raise e, w') => (Raise e, w')
  end.
Proof. reflexivity. Qed.

Lemma run_app (l1 l2 : list Loader.action) (w0 w1 : world) :
  run l1 w0 = (Return tt, w1) -> run (l1 ++ l2) w0 = run l2 w1.
Proof.
  revert w0. induction l1 as [|a l1 IH]; intros w0.
  - now intros [= ->].
  - intros H. rewrite <- List.app_comm_cons.
    rewrite run_cons in *.
    destruct (dispatch a w0) as [[u|e] w']; [now apply IH|discriminate].
Qed.

Lemma run_raise (l1 : list Loader.action) (a : Loader.action)
      (l2 : list Loader.action) (w0 w1 w2 : world) (e : exn) :
  run l1 w0 = (Return tt, w1) ->
  dispatch a w1 = (Raise e, w2) ->
  run (l1 ++ a :: l2) w0 = (Raise e, w2).
Proof.
  intros H1 Ha. rewrite (run_app _ _ _ _ H1), run_cons. now rewrite Ha.
Qed.

End DispatchFacts.

(** C6: the actions are dispatched to [execute_action] one after the
    other, each from the world the one before has left; when the action
    after [done] raises, the list raises the same exception in the world
    that action has left, so with all that [done] has changed, and this
    whatever the actions [rest] that follow: none of them is run. *)
Theorem execute_multiple_actions_stops
        (execute_action : string -> pyval -> pyval -> M unit)
        (done : list Loader.action) (failing : Loader.action)
        (rest : list Loader.action) (w0 w1 w2 : world) (e : exn) :
  Loader.execute_multiple_actions execute_action done w0 = (Return tt, w1) ->
  dispatch execute_action failing w1 = (Raise e, w2) ->
  Loader.execute_multiple_actions execute_action (done ++ failing :: rest) w0 =
    (Raise e, w2) /\
  (forall later,
      Loader.execute_multiple_actions execute_action (done ++ later) w0 =
      Loader.execute_multiple_actions execute_action later w1).
Proof.
  intros H1 Ha. split.
  - now apply run_raise with (w1 := w1).
  - intros later. now apply run_app.
Qed.

(** *** Three actions, the second of which fails *)

Lemma execute_multiple_actions_stops_witness :
  let run := Loader.execute_multiple_actions (Loader.execute_action shot_hook) in
  let first := import_of "/seq/shot.%04d.jpg" in
  let second := import_of "/seq/missing.%04d.jpg" in
  let third := import_of "/seq/shot.%04d.jpg" in
  let w1 := snd (run [first] shot_world) in
  let w2 := snd (dispatch (Loader.execute_action shot_hook) second w1) in
  run ([first] ++ second :: [third])%list shot_world =
    (Raise (new_FileExistenceError "/seq/missing.%04d.jpg"), w2) /\
  (forall later, run ([first] ++ later)%list shot_world = run later w1).
Proof.
  intros run first second third w1 w2.
  apply (execute_multiple_actions_stops (Loader.execute_action shot_hook)
           [first] second [third] shot_world w1 w2).
  - vm_compute. reflexivity.
  - vm_compute. reflexivity.
Defined.

(** What the host has seen of the three actions: the calls of the first,
    none of the third; [execute_action] has logged two calls. *)
Example execute_multiple_actions_trace :
  let w := snd (Loader.execute_multiple_actions (Loader.execute_action shot_hook)
                  [import_of "/seq/shot.%04d.jpg";
                   import_of "/seq/missing.%04d.jpg";
                   import_of "/seq/shot.%04d.jpg"] shot_world) in
  filter (fun e => match e with Tde4 _ | Glob _ => true | _ => false end)
         (trace w) =
    [ Glob "/seq/shot.*.jpg";
      Tde4 (setCameraName 1 "shot010");
      Tde4 (setCameraSequenceAttr 1 1001 1003 1);
      Tde4 (setCameraFrameOffset 1 1001);
      Tde4 (setCameraFrameRangeCalculationFlag 1 1);
      Tde4 (setCameraPath 1 "/seq/shot.####.jpg");
      Glob "/seq/missing.*.jpg" ] /\
  map cam_name (cameras w) = ["shot010"] /\
  List.length
    (filter (fun e => match e with
                      | Log DEBUG _ (LStr "import_image_seq" :: _) => true
                      | _ => false
                      end) (trace w)) = 2%nat.
Proof. repeat split; vm_compute; reflexivity. Qed.

(** ** Camera names *)

(** Reading back the decimal writing of a number. *)
Lemma int_acc_of_uint_acc (d : uint) (acc : positive) :
  Py.int_acc (Zpos acc) (NilEmpty.string_of_uint d) = Zpos (Pos.of_uint_acc d acc).
Proof.
  revert acc.
  induction d; intro acc;
    cbn [NilEmpty.string_of_uint Py.int_acc Pos.of_uint_acc];
    try reflexivity; rewrite <- IHd; f_equal;
    match goal with
    | |- context [Py.digit_value ?c] =>
        let v := eval vm_compute in (Py.digit_value c) in
        change (Py.digit_value c) with v
    end; lia.
Qed.

Lemma int_acc_of_uint (d : uint) :
  Py.int_acc 0 (NilEmpty.string_of_uint d) = Z.of_N (Pos.of_uint d).
Proof.
  induction d; cbn [NilEmpty.string_of_uint Py.int_acc Pos.of_uint];
    try reflexivity;
    match goal with
    | |- context [Py.digit_value ?c] =>
        let v := eval vm_compute in (Py.digit_value c) in
        change (Py.digit_value c) with v
    end; try assumption; apply (int_acc_of_uint_acc d).
Qed.

Lemma int_str_of_int (n : Z) : (0 <= n)%Z -> Py.int (Loader.str_of_int n) = n.
Proof.
  destruct n as [|p|p]; intros Hn; [reflexivity| |lia].
  unfold Loader.str_of_int, Py.int. simpl.
  pose proof (DecimalPos.Unsigned.of_to p) as E.
  unfold NilZero.string_of_uint.
  destruct (Pos.to_uint p) eqn:Eu; try discriminate E;
    rewrite <- Eu in *; rewrite int_acc_of_uint, E; reflexivity.
Qed.

Lemma int_format_02 (n : Z) : (0 <= n)%Z -> Py.int (Loader.format_02 n) = n.
Proof.
  intros Hn. unfold Loader.format_02.
  destruct (String.length (Loader.str_of_int n) <? 2)%nat.
  - now apply int_str_of_int.
  - now apply int_str_of_int.
Qed.

Lemma str_app_length (a b : string) :
  String.length (a ++ b) = (String.length a + String.length b)%nat.
Proof. induction a as [|x a IH]; simpl; [reflexivity|now rewrite IH]. Qed.

Lemma str_app_inv_head (a b c : string) : a ++ b = a ++ c -> b = c.
Proof. induction a as [|x a IH]; simpl; [auto|]. intros [= H]. auto. Qed.

Lemma candidate_inj (base : string) (j k : nat) :
  candidate base j = candidate base k -> j = k.
Proof.
  destruct j as [|j], k as [|k]; simpl; intros H.
  - reflexivity.
  - apply (f_equal String.length) in H. rewrite str_app_length in H.
    simpl in H. lia.
  - apply (f_equal String.length) in H. rewrite str_app_length in H.
    simpl in H. lia.
  - apply str_app_inv_head in H. injection H as H.
    apply (f_equal Py.int) in H. rewrite !int_format_02 in H; lia.
Qed.

Lemma name_taken_dec (w : world) (n : string) :
  {name_taken w n} + {~ name_taken w n}.
Proof. apply in_dec, string_dec. Qed.

Lemma findCameraByName_taken (w : world) (n : string) :
  name_taken w n ->
  exists cam, tde4.findCameraByName n w = (Return (Some cam), w).
Proof.
  unfold name_taken, tde4.findCameraByName, gets. intros H.
  apply in_map_iff in H. destruct H as (c & Hc & Hin).
  destruct (find (fun c => String.eqb (cam_name c) n) (cameras w)) as [c'|] eqn:E.
  - now exists (cam_id c').
  - exfalso. apply (find_none _ _ E) in Hin. rewrite Hc in Hin.
    now rewrite String.eqb_refl in Hin.
Qed.

Lemma findCameraByName_free (w : world) (n : string) :
  ~ name_taken w n -> tde4.findCameraByName n w = (Return None, w).
Proof.
  unfold name_taken, tde4.findCameraByName, gets. intros H.
  destruct (find (fun c => String.eqb (cam_name c) n) (cameras w)) as [c'|] eqn:E.
  - exfalso. apply H. apply find_some in E. destruct E as [Hin Hn].
    apply String.eqb_eq in Hn. apply in_map_iff. eauto.
  - reflexivity.
Qed.

(** The loop, started at the candidate [j0], stops at the first candidate
    that is free if the fuel lasts until there. *)
Lemma find_unused_name_run (base : string) (w : world) (n : nat) :
  forall (j0 fuel : nat),
    (forall i, (i < n)%nat -> name_taken w (candidate base (j0 + i))) ->
    ~ name_taken w (candidate base (j0 + n)) ->
    (n < fuel)%nat ->
    Loader.find_unused_name fuel base (candidate base j0) (Z.of_nat j0) w =
      (Return (candidate base (j0 + n)), w).
Proof.
  induction n as [|n IH]; intros j0 fuel Htaken Hfree Hfuel;
    (destruct fuel as [|fuel]; [lia|]);
    cbn [Loader.find_unused_name]; unfold bind.
  - rewrite Nat.add_0_r in Hfree.
    rewrite (findCameraByName_free _ _ Hfree). now rewrite Nat.add_0_r.
  - destruct (findCameraByName_taken w (candidate base j0)) as [cam ->].
    { specialize (Htaken 0%nat). rewrite Nat.add_0_r in Htaken.
      apply Htaken. lia. }
    replace (Z.of_nat j0 + 1)%Z with (Z.of_nat (S j0)) by lia.
    change (base ++ "__" ++ Loader.format_02 (Z.of_nat (S j0)))
      with (candidate base (S j0)).
    rewrite (IH (S j0) fuel).
    + now rewrite Nat.add_succ_r.
    + intros i Hi. specialize (Htaken (S i)).
      rewrite Nat.add_succ_r in Htaken. apply Htaken. lia.
    + now rewrite Nat.add_succ_r in Hfree.
    + lia.
Qed.

(** Among the first candidates, one more than there are cameras, one is
    free. *)
Lemma candidates_not_all_taken (base : string) (w : world) :
  ~ (forall j, (j <= List.length (cameras w))%nat ->
               name_taken w (candidate base j)).
Proof.
  intros H.
  assert (Hle : (List.length (map (candidate base)
                                  (seq 0 (S (List.length (cameras w)))))
                 <= List.length (map cam_name (cameras w)))%nat).
  { apply NoDup_incl_length.
    - apply Finite.Injective_map_NoDup; [|apply seq_NoDup].
      intros j k. apply candidate_inj.
    - intros n Hn. apply in_map_iff in Hn. destruct Hn as (j & <- & Hj).
      apply in_seq in Hj. apply H. lia. }
  rewrite !length_map, length_seq in Hle. lia.
Qed.

Lemma first_free_candidate (base : string) (w : world) :
  exists k,
    (k <= List.length (cameras w))%nat /\
    ~ name_taken w (candidate base k) /\
    forall j, (j < k)%nat -> name_taken w (candidate base j).
Proof.
  assert (Hscan : forall fuel j0,
             (j0 + fuel = S (List.length (cameras w)))%nat ->
             (forall j, (j < j0)%nat -> name_taken w (candidate base j)) ->
             exists k,
               (k <= List.length (cameras w))%nat /\
               ~ name_taken w (candidate base k) /\
               forall j, (j < k)%nat -> name_taken w (candidate base j)).
  { induction fuel as [|fuel IH]; intros j0 Hsum Hbelow.
    - exfalso. apply (candidates_not_all_taken base w).
      intros j Hj. apply Hbelow. lia.
    - destruct (name_taken_dec w (candidate base j0)) as [Ht|Hf].
      + apply (IH (S j0)); [lia|].
        intros j Hj. destruct (Nat.eq_dec j j0) as [->|]; [assumption|].
        apply Hbelow. lia.
      + exists j0. repeat split; [lia|assumption|assumption]. }
  apply (Hscan (S (List.length (cameras w))) 0%nat); [lia|].
  intros j Hj. lia.
Qed.

(** The loop of the hook, with the fuel the hook gives it, returns the
    first candidate that no camera has, and changes nothing. *)
Lemma find_unused_name_first (base : string) (w : world) :
  exists k,
    Loader.find_unused_name (S (List.length (cameras w))) base base 0 w =
      (Return (candidate base k), w) /\
    ~ name_taken w (candidate base k) /\
    forall j, (j < k)%nat -> name_taken w (candidate base j).
Proof.
  destruct (first_free_candidate base w) as (k & Hk & Hfree & Hbelow).
  exists k. repeat split; try assumption.
  apply (find_unused_name_run base w k 0 (S (List.length (cameras w))));
    [assumption|assumption|lia].
Qed.

(** ** Assigning the sequence to one camera *)

Lemma update_update (cam : positive) (f g : camera -> camera) (cs : list camera) :
  (forall c, cam_id (g c) = cam_id c) ->
  tde4.update cam f (tde4.update cam g cs) = tde4.update cam (fun c => f (g c)) cs.
Proof.
  intros Hg. unfold tde4.update. rewrite map_map. apply map_ext. intros c.
  destruct (Pos.eqb (cam_id c) cam) eqn:E.
  - now rewrite Hg, E.
  - now rewrite E.
Qed.

(** The primitive steps, on a world given by its four fields. *)
Section Steps.
Variables (f : string -> list string) (cs : list camera) (p : option string)
          (t : list event).

Lemma logger_run (level : log_level) (fmt : string) (args : list log_arg) :
  tde4.logger level fmt args (mkWorld f cs p t) =
    (Return tt, mkWorld f cs p (t ++ [Log level fmt args])).
Proof. reflexivity. Qed.

Lemma call_run (c : tde4_call) (g : list camera -> list camera) :
  tde4.call c g (mkWorld f cs p t) =
    (Return tt, mkWorld f (g cs) p (t ++ [Tde4 c])).
Proof. reflexivity. Qed.

Lemma getCameraName_run (cam : positive) :
  tde4.getCameraName cam (mkWorld f cs p t) =
    (Return (current_name (mkWorld f cs p t) cam), mkWorld f cs p t).
Proof. reflexivity. Qed.

Lemma count_cameras_run :
  gets (fun w => List.length (cameras w)) (mkWorld f cs p t) =
    (Return (List.length cs), mkWorld f cs p t).
Proof. reflexivity. Qed.

End Steps.

(** One statement of a hook body: run it with the lemma [L], go on with
    the rest. *)
Ltac step L := unfold bind at 1; rewrite L; cbv beta iota.

Section AssignCamera.
Variables (name path : string) (start stop step : Z) (cam : positive).
Variable w : world.

Lemma assign_camera_attributes (f : string -> list string) (cs : list camera)
      (p : option string) (t : list event) :
  (tde4.logger DEBUG "setCameraSequenceAttr: %s, %d, %d, %d"
               [LCam cam; LInt start; LInt stop; LInt step] ;;
   tde4.setCameraSequenceAttr cam start stop step ;;
   tde4.logger DEBUG "setCameraFrameOffset: %s, %d" [LCam cam; LInt start] ;;
   tde4.setCameraFrameOffset cam start ;;
   tde4.logger DEBUG "setCameraFrameRangeCalculationFlag: %s, 1" [LCam cam] ;;
   tde4.setCameraFrameRangeCalculationFlag cam 1 ;;
   tde4.logger DEBUG "setCameraPath: %s, %s" [LCam cam; LStr path] ;;
   tde4.setCameraPath cam path)%hook (mkWorld f cs p t) =
  (Return tt,
   mkWorld f (tde4.update cam (set_attributes path start stop step) cs) p
           (t ++ attribute_events cam path start stop step)).
Proof.
  unfold tde4.setCameraSequenceAttr, tde4.setCameraFrameOffset,
    tde4.setCameraFrameRangeCalculationFlag, tde4.setCameraPath.
  step logger_run. step call_run. step logger_run. step call_run.
  step logger_run. step call_run. step logger_run. rewrite call_run.
  rewrite !update_update by reflexivity.
  rewrite <- !app_assoc. reflexivity.
Qed.

Lemma assign_camera_named :
  Py.startswith (current_name w cam) name = true ->
  Loader.assign_camera name path start stop step cam w =
    (Return tt,
     mkWorld (fs_glob w)
       (tde4.update cam (set_attributes path start stop step) (cameras w))
       (project_path w)
       (trace w ++
          [ Log DEBUG "Current camera: '%s'" [LStr (current_name w cam)];
            Log INFO "'%s' already has name referring to Shot"
                [LStr (current_name w cam)] ] ++
          attribute_events cam path start stop step)).
Proof.
  destruct w as [f cs p t]. intros H. unfold Loader.assign_camera.
  cbn [fs_glob cameras project_path trace].
  step getCameraName_run. step logger_run.
  unfold bind at 1. rewrite H, logger_run. cbv beta iota.
  rewrite assign_camera_attributes, <- !app_assoc. reflexivity.
Qed.

Lemma assign_camera_renamed :
  Py.startswith (current_name w cam) name = false ->
  exists k,
    Loader.assign_camera name path start stop step cam w =
      (Return tt,
       mkWorld (fs_glob w)
         (tde4.update cam (set_attributes path start stop step)
            (tde4.update cam (tde4.set_name (candidate name k)) (cameras w)))
         (project_path w)
         (trace w ++
            [ Log DEBUG "Current camera: '%s'" [LStr (current_name w cam)];
              Log INFO "Renaming '%s' to '%s'"
                  [LStr (current_name w cam); LStr (candidate name k)];
              Tde4 (setCameraName cam (candidate name k)) ] ++
            attribute_events cam path start stop step)) /\
    ~ name_taken w (candidate name k) /\
    forall j, (j < k)%nat -> name_taken w (candidate name j).
Proof.
  destruct w as [f cs p t]. intros H.
  destruct (find_unused_name_first name
              (mkWorld f cs p
                 (t ++ [Log DEBUG "Current camera: '%s'"
                            [LStr (current_name (mkWorld f cs p t) cam)]])))
    as (k & Hk & Hfree & Hbelow).
  cbn [cameras] in Hk.
  exists k. split; [|split; assumption].
  unfold Loader.assign_camera. cbn [fs_glob cameras project_path trace].
  step getCameraName_run. step logger_run.
  unfold bind at 1. rewrite H.
  step count_cameras_run. step Hk. step logger_run.
  unfold tde4.setCameraName. rewrite call_run. cbv beta iota.
  rewrite assign_camera_attributes, <- !app_assoc. reflexivity.
Qed.

End AssignCamera.

Lemma added_app (w w' : world) (evs : list event) :
  trace w' = (trace w ++ evs)%list -> added w w' = evs.
Proof.
  intros H. unfold added. rewrite H, skipn_app, skipn_all, Nat.sub_diag.
  reflexivity.
Qed.

(** C7: a camera whose name does not start with [base] is renamed, and the
    name it gets is the first of [base], [base__01], [base__02], ... that
    no camera of the project has: the host is told this name and no other,
    every candidate before it is the name of a camera, and the counter is
    written with two digits. *)
Theorem camera_name_disambiguation
        (base path : string) (start stop step : Z) (cam : positive) (w : world) :
  Py.startswith (current_name w cam) base = false ->
  exists k w',
    Loader.assign_camera base path start stop step cam w = (Return tt, w') /\
    (forall n, In (Tde4 (setCameraName cam n)) (added w w') <->
               n = candidate base k) /\
    ~ name_taken w (candidate base k) /\
    (forall j, (j < k)%nat -> name_taken w (candidate base j)) /\
    candidate base 0 = base /\
    candidate base 1 = base ++ "__01" /\
    candidate base 2 = base ++ "__02".
Proof.
  intros H.
  destruct (assign_camera_renamed base path start stop step cam w H)
    as (k & Hrun & Hfree & Hbelow).
  exists k. eexists. split; [exact Hrun|].
  split; [|repeat split; assumption].
  intros n. erewrite added_app by reflexivity. simpl. split.
  - intros [E|[E|[E|[E|[E|[E|[E|[E|[E|[E|[E|[]]]]]]]]]]]]; try discriminate E.
    now injection E.
  - intros ->. auto.
Qed.

(** One camera is called ["shot010"] already: the next one that wants the
    name becomes ["shot010__01"]. *)
Lemma camera_name_disambiguation_witness :
  let w := world_of_cameras [sequence_camera 1 "shot010" false;
                             sequence_camera 2 "plate" true] in
  exists w',
    Loader.assign_camera "shot010" "/seq/shot.####.jpg" 1001 1004 1 2 w =
      (Return tt, w') /\
    In (Tde4 (setCameraName 2 "shot010__01")) (added w w').
Proof.
  intros w.
  destruct (camera_name_disambiguation "shot010" "/seq/shot.####.jpg"
              1001 1004 1 2 w eq_refl)
    as (k & w' & Hrun & Hname & Hfree & Hbelow & _).
  exists w'. split; [exact Hrun|].
  apply Hname. destruct k as [|[|k]].
  - exfalso. apply Hfree. left. reflexivity.
  - reflexivity.
  - exfalso. destruct (Hbelow 1%nat) as [E|[E|[]]]; [lia|discriminate E..].
Defined.

(** With ["shot010"] and ["shot010__01"] both taken the loop goes on to
    ["shot010__02"]. *)
Example camera_name_second_collision :
  outcome (Loader.find_unused_name 4 "shot010" "shot010" 0)
          (world_of_cameras [sequence_camera 1 "shot010" false;
                             sequence_camera 2 "shot010__01" false;
                             sequence_camera 3 "plate" true]) =
    Return "shot010__02".
Proof. reflexivity. Qed.

(** ** The import of a sequence into the selected cameras *)

Section CameraTable.
Variables (cam : positive) (f : camera -> camera).
Hypothesis f_keeps_id : forall c, cam_id (f c) = cam_id c.

Lemma lookup_update_other (cam' : positive) (cs : list camera) :
  cam' <> cam -> tde4.lookup cam' (tde4.update cam f cs) = tde4.lookup cam' cs.
Proof.
  intros Hne. unfold tde4.lookup, tde4.update.
  induction cs as [|c cs IH]; simpl; [reflexivity|].
  destruct (Pos.eqb (cam_id c) cam) eqn:E.
  - apply Pos.eqb_eq in E. rewrite f_keeps_id.
    destruct (Pos.eqb (cam_id c) cam') eqn:E'; [|exact IH].
    apply Pos.eqb_eq in E'. congruence.
  - destruct (Pos.eqb (cam_id c) cam'); [reflexivity|exact IH].
Qed.

Lemma lookup_update_same (cs : list camera) :
  tde4.lookup cam (tde4.update cam f cs) = option_map f (tde4.lookup cam cs).
Proof.
  unfold tde4.lookup, tde4.update.
  induction cs as [|c cs IH]; simpl; [reflexivity|].
  destruct (Pos.eqb (cam_id c) cam) eqn:E.
  - now rewrite f_keeps_id, E.
  - now rewrite E.
Qed.

End CameraTable.

Lemma lookup_update_name (cam cam' : positive) (f : camera -> camera)
      (cs : list camera) :
  (forall c, cam_id (f c) = cam_id c) ->
  (forall c, cam_name (f c) = cam_name c) ->
  option_map cam_name (tde4.lookup cam' (tde4.update cam f cs)) =
  option_map cam_name (tde4.lookup cam' cs).
Proof.
  intros Hid Hname. destruct (Pos.eq_dec cam' cam) as [->|Hne].
  - rewrite lookup_update_same by assumption.
    destruct (tde4.lookup cam cs); simpl; [now rewrite Hname|reflexivity].
  - now rewrite lookup_update_other.
Qed.

Lemma current_name_lookup (w w' : world) (cam : positive) :
  option_map cam_name (tde4.lookup cam (cameras w')) =
  option_map cam_name (tde4.lookup cam (cameras w)) ->
  current_name w' cam = current_name w cam.
Proof.
  unfold current_name.
  destruct (tde4.lookup cam (cameras w')), (tde4.lookup cam (cameras w));
    simpl; congruence.
Qed.

Lemma startswith_app (a b : string) : Py.startswith (a ++ b) a = true.
Proof.
  induction a as [|x a IH]; simpl.
  - now destruct b.
  - now rewrite Ascii.eqb_refl, IH.
Qed.

Lemma startswith_candidate (base : string) (k : nat) :
  Py.startswith (candidate base k) base = true.
Proof.
  destruct k as [|k]; simpl.
  - replace base with (base ++ "") at 1; [apply startswith_app|].
    induction base as [|x a IH]; simpl; [reflexivity|now rewrite IH].
  - apply startswith_app.
Qed.

Lemma in_attribute_events (cam : positive) (path : string) (start stop step : Z)
      (c : tde4_call) :
  In (Tde4 c) (attribute_events cam path start stop step) <->
  c = setCameraSequenceAttr cam start stop step \/
  c = setCameraFrameOffset cam start \/
  c = setCameraFrameRangeCalculationFlag cam 1 \/
  c = setCameraPath cam path.
Proof.
  unfold attribute_events. simpl. split.
  - intros [E|[E|[E|[E|[E|[E|[E|[E|[]]]]]]]]]; try discriminate E;
      injection E as <-; auto.
  - intros [-> | [-> | [-> | ->]]]; auto 10.
Qed.

Lemma set_attributes_id (path : string) (start stop step : Z) (c : camera) :
  cam_id (set_attributes path start stop step c) = cam_id c.
Proof. reflexivity. Qed.

Lemma set_attributes_name (path : string) (start stop step : Z) (c : camera) :
  cam_name (set_attributes path start stop step c) = cam_name c.
Proof. reflexivity. Qed.

Lemma set_attributes_has (path : string) (start stop step : Z) (c : camera) :
  has_attributes path start stop step (set_attributes path start stop step c).
Proof. repeat split. Qed.

(** One turn of the loop over the selected cameras: what it adds to the
    trace and what it does to the cameras.  The turn always returns. *)
Lemma assign_camera_step (name path : string) (start stop step : Z)
      (cam0 : positive) (w : world) :
  exists w' evs,
    Loader.assign_camera name path start stop step cam0 w = (Return tt, w') /\
    trace w' = (trace w ++ evs)%list /\
    (forall cam', cam' <> cam0 ->
       tde4.lookup cam' (cameras w') = tde4.lookup cam' (cameras w)) /\
    (forall c, In (Tde4 c) (attribute_events cam0 path start stop step) ->
               In (Tde4 c) evs) /\
    (forall c, tde4.lookup cam0 (cameras w) = Some c ->
       exists c', tde4.lookup cam0 (cameras w') = Some c' /\
                  has_attributes path start stop step c') /\
    ((Py.startswith (current_name w cam0) name = true /\
      (forall c n, ~ In (Tde4 (setCameraName c n)) evs) /\
      current_name w' cam0 = current_name w cam0)
     \/
     (Py.startswith (current_name w cam0) name = false /\
      exists k,
        (forall c n, In (Tde4 (setCameraName c n)) evs <->
                     c = cam0 /\ n = candidate name k) /\
        (forall c, tde4.lookup cam0 (cameras w) = Some c ->
                   current_name w' cam0 = candidate name k))).
Proof.
  destruct (Py.startswith (current_name w cam0) name) eqn:Hs.
  - eexists. eexists. split; [apply (assign_camera_named _ _ _ _ _ _ _ Hs)|].
    cbn [trace cameras]. split; [reflexivity|]. repeat split.
    + intros cam' Hne. apply lookup_update_other; [reflexivity|assumption].
    + intros c Hc. apply in_app_iff. right. exact Hc.
    + intros c Hc. rewrite lookup_update_same, Hc by reflexivity.
      eexists. split; [reflexivity|apply set_attributes_has].
    + left. repeat split.
      * intros c n Hin. apply in_app_iff in Hin.
        destruct Hin as [[E|[E|[]]]|Hin]; try discriminate E.
        apply in_attribute_events in Hin.
        destruct Hin as [E|[E|[E|E]]]; discriminate E.
      * unfold current_name. cbn [cameras].
        rewrite lookup_update_same by reflexivity.
        now destruct (tde4.lookup cam0 (cameras w)).
  - destruct (assign_camera_renamed name path start stop step cam0 w Hs)
      as (k & Hrun & _).
    eexists. eexists. split; [exact Hrun|].
    cbn [trace cameras]. split; [reflexivity|]. repeat split.
    + intros cam' Hne.
      rewrite !lookup_update_other by (reflexivity || assumption).
      reflexivity.
    + intros c Hc. apply in_app_iff. right. exact Hc.
    + intros c Hc. rewrite !lookup_update_same, Hc by reflexivity.
      eexists. split; [reflexivity|apply set_attributes_has].
    + right. split; [reflexivity|]. exists k. split.
      * intros c n. split.
        -- intros Hin. apply in_app_iff in Hin.
           destruct Hin as [[E|[E|[E|[]]]]|Hin]; try discriminate E.
           ++ injection E as <- <-. now split.
           ++ apply in_attribute_events in Hin.
              destruct Hin as [E|[E|[E|E]]]; discriminate E.
        -- intros [-> ->]. apply in_app_iff. left. right. right. left.
           reflexivity.
      * intros c Hc. unfold current_name. cbn [cameras].
        rewrite !lookup_update_same, Hc by reflexivity. reflexivity.
Qed.

(** *** The loop over the selected cameras *)

Section ImportLoop.
Variables (name path : string) (start stop step : Z).
(** The world in which the loop starts, and a camera to follow. *)
Variable ws : world.
Variable cam : positive.

Local Abbreviation loop_invariant :=
  (loop_invariant name path start stop step ws cam).

Lemma loop_invariant_start : loop_invariant false ws.
Proof.
  exists []. split; [now rewrite app_nil_r|]. repeat split.
  - eauto.
  - intros cam'. left. split; [intros n []|reflexivity].
  - intros cam' n [].
  - discriminate.
  - discriminate.
Qed.

Lemma loop_invariant_step (visited : bool) (cam0 : positive) (w : world) :
  tde4.lookup cam0 (cameras ws) <> None ->
  loop_invariant visited w ->
  exists w',
    Loader.assign_camera name path start stop step cam0 w = (Return tt, w') /\
    loop_invariant (visited || Pos.eqb cam0 cam) w'.
Proof.
  intros Hex (evs & Htrace & Hkeep & Hnames & Hrenamed & Hattr).
  destruct (assign_camera_step name path start stop step cam0 w)
    as (w' & evs1 & Hrun & Htrace' & Hother & Hevents & Hset & Hcase).
  exists w'. split; [exact Hrun|].
  assert (Hin0 : exists c0, tde4.lookup cam0 (cameras w) = Some c0).
  { destruct (tde4.lookup cam0 (cameras ws)) as [c|] eqn:E; [|congruence].
    exact (Hkeep cam0 c E). }
  destruct Hin0 as [c0 Hc0].
  assert (Hname_other : forall cam', cam' <> cam0 ->
                          current_name w' cam' = current_name w cam').
  { intros cam' Hne. unfold current_name. now rewrite (Hother cam' Hne). }
  assert (Hquiet : forall cam', cam' <> cam0 -> not_renamed cam' evs1).
  { intros cam' Hne n Hin.
    destruct Hcase as [(_ & Hno & _)|(_ & k & Hk & _)].
    - exact (Hno _ _ Hin).
    - apply Hk in Hin. destruct Hin as [E _]. contradiction. }
  exists (evs ++ evs1)%list. split; [|split; [|split; [|split]]].
  - now rewrite Htrace', Htrace, app_assoc.
  - intros cam' c Hc. destruct (Hkeep cam' c Hc) as [c1 Hc1].
    destruct (Pos.eq_dec cam' cam0) as [->|Hne].
    + destruct (Hset c1 Hc1) as (c2 & Hc2 & _). eauto.
    + rewrite (Hother cam' Hne). eauto.
  - intros cam'. destruct (Pos.eq_dec cam' cam0) as [->|Hne].
    + destruct Hcase as [(Hs & Hno & Hsame)|(Hs & k & Hk & Hnew)].
      * destruct (Hnames cam0) as [[Hnr Heq]|[[n Hn] Hst]].
        -- left. split; [|congruence].
           intros n Hin. apply in_app_iff in Hin.
           destruct Hin as [Hin|Hin]; [exact (Hnr n Hin)|exact (Hno _ _ Hin)].
        -- right. split; [|congruence].
           exists n. apply in_app_iff. now left.
      * right. split.
        -- exists (candidate name k). apply in_app_iff. right.
           apply Hk. now split.
        -- rewrite (Hnew c0 Hc0). apply startswith_candidate.
    + rewrite (Hname_other cam' Hne).
      destruct (Hnames cam') as [[Hnr Heq]|[[n Hn] Hst]].
      * left. split; [|assumption].
        intros n Hin. apply in_app_iff in Hin.
        destruct Hin as [Hin|Hin];
          [exact (Hnr n Hin)|exact (Hquiet cam' Hne n Hin)].
      * right. split; [|assumption].
        exists n. apply in_app_iff. now left.
  - intros cam' n Hin. apply in_app_iff in Hin.
    destruct Hin as [Hin|Hin]; [exact (Hrenamed _ _ Hin)|].
    destruct Hcase as [(_ & Hno & _)|(Hs & k & Hk & _)].
    + destruct (Hno _ _ Hin).
    + apply Hk in Hin. destruct Hin as [-> _].
      destruct (Hnames cam0) as [[_ Heq]|[_ Hst]]; congruence.
  - intros Hv. destruct (Pos.eqb cam0 cam) eqn:E.
    + apply Pos.eqb_eq in E. subst cam0. split.
      * intros c Hc. apply in_app_iff. right. now apply Hevents.
      * destruct (Hset c0 Hc0) as (c2 & Hc2 & Hhas). eauto.
    + apply Pos.eqb_neq in E. rewrite orb_false_r in Hv.
      destruct (Hattr Hv) as (Hev & c' & Hc' & Hhas). split.
      * intros c Hc. apply in_app_iff. left. now apply Hev.
      * exists c'. split; [|assumption].
        rewrite Hother by congruence. assumption.
Qed.

Lemma loop_invariant_for_each (l : list positive) :
  Forall (fun cam0 => tde4.lookup cam0 (cameras ws) <> None) l ->
  forall (visited : bool) (w : world),
    loop_invariant visited w ->
    exists w',
      for_each l (Loader.assign_camera name path start stop step) w =
        (Return tt, w') /\
      loop_invariant (visited || existsb (fun cam0 => Pos.eqb cam0 cam) l) w'.
Proof.
  induction 1 as [|cam0 l Hex _ IH]; intros visited w Hinv.
  - exists w. split; [reflexivity|]. simpl. now rewrite orb_false_r.
  - destruct (loop_invariant_step visited cam0 w Hex Hinv) as (w1 & Hrun & Hinv1).
    destruct (IH _ _ Hinv1) as (w' & Hrun' & Hinv').
    exists w'. split.
    + simpl. unfold bind. now rewrite Hrun.
    + simpl. now rewrite orb_assoc.
Qed.

End ImportLoop.

Lemma getCameraList_selected (w : world) :
  tde4.getCameraList true w =
    (Return (map cam_id (filter cam_selected (cameras w))), w).
Proof. reflexivity. Qed.

Lemma filterM_is_sequence_camera (l : list positive) (w : world) :
  filterM Loader.is_sequence_camera l w =
    (Return (filter (fun cam => String.eqb (camera_type w cam) "SEQUENCE") l), w).
Proof.
  induction l as [|cam l IH]; [reflexivity|].
  cbn [filterM filter]. unfold bind at 1.
  change (Loader.is_sequence_camera cam w)
    with (Return (String.eqb (camera_type w cam) "SEQUENCE"), w).
  cbv beta iota. unfold bind at 1. rewrite IH. reflexivity.
Qed.

Lemma selected_sequence_camera_exists (w : world) (cam : positive) :
  In cam (selected_sequence_cameras w) -> tde4.lookup cam (cameras w) <> None.
Proof.
  unfold selected_sequence_cameras. intros H. apply filter_In in H.
  destruct H as [_ H]. unfold camera_type in H.
  destruct (tde4.lookup cam (cameras w)); [discriminate|discriminate H].
Qed.

(** The resolver leaves the cameras alone and makes no call of the host. *)
Lemma resolver_world (path : string) (w : world) :
  let w1 := snd (Loader.get_hash_path_and_range_info_from_seq path w) in
  cameras w1 = cameras w /\
  exists evs, trace w1 = (trace w ++ evs)%list /\
              forall c, ~ In (Tde4 c) evs.
Proof.
  assert (H : snd (Loader.get_hash_path_and_range_info_from_seq path w) = w \/
              exists pattern,
                snd (Loader.get_hash_path_and_range_info_from_seq path w) =
                emit (Glob pattern) w).
  { destruct (Loader.frame_spec_search path) as [[spec width]|] eqn:Hs.
    - right. exists (glob_pattern path spec).
      destruct (matched_files w path spec) as [|f fs] eqn:Hf.
      + now rewrite (resolve_no_file _ _ _ _ Hs Hf).
      + rewrite (resolve_files _ _ _ _ Hs) by (rewrite Hf; discriminate).
        destruct (1 <? _)%nat; [reflexivity|].
        destruct (py_min _); [|reflexivity].
        destruct (py_max _); [|reflexivity].
        destruct (py_item0 _); reflexivity.
    - left. now rewrite resolve_search_fails. }
  destruct H as [->|[pattern ->]].
  - split; [reflexivity|]. exists []. split; [now rewrite app_nil_r|].
    intros c [].
  - split; [reflexivity|]. exists [Glob pattern]. split; [reflexivity|].
    intros c [E|[]]. discriminate E.
Qed.

(** C10: the import of a sequence that resolves to [(path', start, stop,
    step)], and a selected sequence camera [cam] whose name starts with the
    name of the entity of the context.  The import returns; the host is
    never asked to rename [cam] and [cam] keeps its name; the host is asked
    to set its sequence attribute, frame offset, frame range calculation
    flag and path, and [cam] has them at the end; a camera keeps its name
    unless the host was asked to rename it, which happens only to cameras
    whose name did not start with the name of the entity. *)
Theorem import_keeps_named_camera
        (self : Loader.hook) (path : string) (data : pyval) (w w1 : world)
        (path' : string) (start stop step : Z) (cam : positive) :
  let name := Loader.context_entity_name (Loader.parent self) in
  Loader.get_hash_path_and_range_info_from_seq path w =
    (Return (path', start, stop, step), w1) ->
  In cam (selected_sequence_cameras w) ->
  Py.startswith (current_name w cam) name = true ->
  exists w',
    Loader._import_image_seq self path data w = (Return tt, w') /\
    not_renamed cam (added w w') /\
    current_name w' cam = current_name w cam /\
    (forall c, In (Tde4 c) (attribute_events cam path' start stop step) ->
               In (Tde4 c) (added w w')) /\
    (exists c', tde4.lookup cam (cameras w') = Some c' /\
                has_attributes path' start stop step c') /\
    (forall cam', not_renamed cam' (added w w') ->
                  current_name w' cam' = current_name w cam') /\
    (forall cam' n, In (Tde4 (setCameraName cam' n)) (added w w') ->
                    Py.startswith (current_name w cam') name = false).
Proof.
  intros name Hres Hsel Hstarts.
  destruct (resolver_world path w) as (Hcams & evs0 & Htrace0 & Hquiet0).
  rewrite Hres in Hcams, Htrace0. cbn [snd] in Hcams, Htrace0.
  assert (Hsel1 : selected_sequence_cameras w1 = selected_sequence_cameras w).
  { unfold selected_sequence_cameras, camera_type. now rewrite Hcams. }
  set (ws := emit (Log INFO "%d sequence cameras selected, assigning to all"
                       [LInt (Z.of_nat (List.length (selected_sequence_cameras w1)))])
                  w1).
  assert (Hcams_s : cameras ws = cameras w) by exact Hcams.
  assert (Hname_s : forall c, current_name ws c = current_name w c).
  { intros c. unfold current_name. now rewrite Hcams_s. }
  destruct (loop_invariant_for_each name path' start stop step ws cam
              (selected_sequence_cameras w1)) with (visited := false) (w := ws)
    as (w' & Hloop & evs & Htrace & Hkeep & Hnames & Hrenamed & Hattr).
  { apply Forall_forall. intros c Hc. rewrite Hcams_s.
    apply selected_sequence_camera_exists. now rewrite <- Hsel1. }
  { apply loop_invariant_start. }
  assert (Hvisited : false || existsb (fun c => Pos.eqb c cam)
                                      (selected_sequence_cameras w1) = true).
  { apply existsb_exists. exists cam. rewrite Hsel1.
    split; [assumption|apply Pos.eqb_refl]. }
  destruct (Hattr Hvisited) as (Hevents & c' & Hc' & Hhas).
  assert (Hadded : forall c, In (Tde4 c) (added w w') <-> In (Tde4 c) evs).
  { intros c.
    rewrite (added_app w w'
               (evs0 ++ [Log INFO "%d sequence cameras selected, assigning to all"
                             [LInt (Z.of_nat (List.length
                                                (selected_sequence_cameras w1)))]]
                     ++ evs)).
    - rewrite !in_app_iff. split; [|tauto].
      intros [H|[[H|[]]|H]]; [destruct (Hquiet0 _ H)|discriminate H|exact H].
    - rewrite Htrace. unfold ws. cbn [trace emit]. rewrite Htrace0.
      now rewrite <- !app_assoc. }
  assert (Hnr : not_renamed cam (added w w')).
  { intros n Hin. apply Hadded in Hin. apply Hrenamed in Hin.
    rewrite Hname_s in Hin. congruence. }
  exists w'. split; [|split; [|split; [|split; [|split; [|split]]]]].
  - unfold Loader._import_image_seq. unfold bind at 1. rewrite Hres.
    cbv beta iota. unfold bind at 1.
    change (tde4.getNoCameras w1)
      with (Return (Z.of_nat (List.length (cameras w1))), w1).
    cbv beta iota.
    destruct (Z.of_nat (List.length (cameras w1)) =? 0)%Z eqn:En.
    { exfalso. apply Z.eqb_eq in En.
      apply (selected_sequence_camera_exists w cam Hsel).
      rewrite <- Hcams. destruct (cameras w1); [reflexivity|discriminate En]. }
    unfold bind at 1. rewrite getCameraList_selected. cbv beta iota.
    unfold bind at 1. rewrite filterM_is_sequence_camera. cbv beta iota.
    fold (selected_sequence_cameras w1).
    destruct (selected_sequence_cameras w1) as [|c0 l] eqn:El.
    { rewrite <- Hsel1 in Hsel. destruct Hsel. }
    unfold bind at 1.
    change (tde4.logger INFO "%d sequence cameras selected, assigning to all"
                        [LInt (Z.of_nat (List.length (c0 :: l)))] w1)
      with (Return tt, ws).
    cbv beta iota. exact Hloop.
  - exact Hnr.
  - destruct (Hnames cam) as [[_ Heq]|[[n Hn] _]].
    + now rewrite Heq, Hname_s.
    + exfalso. apply (Hnr n). now apply Hadded.
  - intros c Hc. apply Hadded. now apply Hevents.
  - eauto.
  - intros cam' Hnr'. destruct (Hnames cam') as [[_ Heq]|[[n Hn] _]].
    + now rewrite Heq, Hname_s.
    + exfalso. apply (Hnr' n). now apply Hadded.
  - intros cam' n Hin. apply Hadded in Hin. apply Hrenamed in Hin.
    now rewrite Hname_s in Hin.
Qed.

Lemma import_keeps_named_camera_witness :
  exists w',
    Loader._import_image_seq shot_hook "/seq/shot.%04d.jpg" PNone
                             two_camera_world = (Return tt, w') /\
    not_renamed 1 (added two_camera_world w') /\
    current_name w' 1 = "shot010_main".
Proof.
  destruct (import_keeps_named_camera shot_hook "/seq/shot.%04d.jpg" PNone
              two_camera_world
              (emit (Glob "/seq/shot.*.jpg") two_camera_world)
              "/seq/shot.####.jpg" 1001 1003 1 1)
    as (w' & Hrun & Hnr & Hname & _).
  - vm_compute. reflexivity.
  - vm_compute. left. reflexivity.
  - vm_compute. reflexivity.
  - exists w'. split; [exact Hrun|]. split; [exact Hnr|exact Hname].
Defined.

(** What the host is asked during this import: camera 1 is not renamed,
    camera 2 becomes ["shot010__01"] as camera 3 has the name of the shot,
    and both get the attributes of the sequence. *)
Example import_two_cameras_trace :
  let w' := snd (Loader._import_image_seq shot_hook "/seq/shot.%04d.jpg" PNone
                   two_camera_world) in
  filter (fun e => match e with Tde4 _ => true | _ => false end) (trace w') =
    [ Tde4 (setCameraSequenceAttr 1 1001 1003 1);
      Tde4 (setCameraFrameOffset 1 1001);
      Tde4 (setCameraFrameRangeCalculationFlag 1 1);
      Tde4 (setCameraPath 1 "/seq/shot.####.jpg");
      Tde4 (setCameraName 2 "shot010__01");
      Tde4 (setCameraSequenceAttr 2 1001 1003 1);
      Tde4 (setCameraFrameOffset 2 1001);
      Tde4 (setCameraFrameRangeCalculationFlag 2 1);
      Tde4 (setCameraPath 2 "/seq/shot.####.jpg") ] /\
  map cam_name (cameras w') = ["shot010_main"; "shot010__01"; "shot010"].
Proof. split; vm_compute; reflexivity. Qed.

(** * Further properties *)

(** ** The resolver: what it returns, what it raises, what it does *)

Lemma min_from_sorted (x : Z) (r : list Z) :
  Sorted Z.le (x :: r) -> Py.min_from x r = x.
Proof.
  intros H. apply Sorted_StronglySorted in H; [|intros a b c; apply Z.le_trans].
  apply StronglySorted_inv in H. destruct H as [_ H].
  unfold Py.min_from. induction H as [|a r Ha _ IH]; simpl; [reflexivity|].
  now rewrite Z.min_l.
Qed.

Lemma last_cons_default (a x : Z) (r : list Z) : last (a :: r) x = last r a.
Proof.
  revert a x. induction r as [|b r IH]; intros a x; [reflexivity|].
  change (last (a :: b :: r) x) with (last (b :: r) x).
  now rewrite (IH b x), (IH b a).
Qed.

Lemma max_from_sorted (x : Z) (r : list Z) :
  Sorted Z.le (x :: r) -> Py.max_from x r = last r x.
Proof.
  unfold Py.max_from. revert x. induction r as [|a r IH]; intros x H.
  - reflexivity.
  - apply Sorted_inv in H. destruct H as [Hs Hd].
    apply HdRel_inv in Hd. simpl fold_left. rewrite Z.max_r by assumption.
    rewrite (IH a Hs). symmetry. apply last_cons_default.
Qed.

Lemma int_acc_nonneg (s : string) (acc : Z) :
  all_digits s = true -> (0 <= acc)%Z -> (0 <= Py.int_acc acc s)%Z.
Proof.
  revert acc.
  induction s as [|c s IH]; intros acc Hd Hacc; cbn [Py.int_acc];
    [assumption|].
  cbn [all_digits] in Hd. apply andb_true_iff in Hd. destruct Hd as [Hc Hs].
  apply IH; [assumption|].
  unfold Py.is_digit in Hc. cbv zeta in Hc.
  apply andb_true_iff in Hc. destruct Hc as [H1 H2].
  apply Nat.leb_le in H1. unfold Py.digit_value.
  assert (48 <= Z.of_nat (nat_of_ascii c))%Z by lia. lia.
Qed.

Lemma collect_frame_numbers_nonneg (paths : list string) :
  Forall (fun n => (0 <= n)%Z) (Loader.collect_frame_numbers paths).
Proof.
  induction paths as [|f fs IH]; simpl; [constructor|].
  destruct (Loader.frame_number_search f) as [g|] eqn:E; [|assumption].
  constructor; [|assumption].
  destruct (search_Some "." "." _ _ E) as (_ & Hd & _).
  apply int_acc_nonneg; [assumption|lia].
Qed.

Lemma get_frame_numbers_nonneg (paths : list string) :
  Forall (fun n => (0 <= n)%Z) (Loader.get_frame_numbers paths).
Proof.
  unfold Loader.get_frame_numbers.
  eapply Permutation_Forall; [|apply collect_frame_numbers_nonneg].
  symmetry. apply sorted_perm.
Qed.

Lemma progression_S (x d : Z) (n : nat) :
  progression x d (S n) = x :: progression (x + d) d n.
Proof.
  unfold progression. cbn [seq map]. f_equal; [lia|].
  rewrite <- seq_shift, map_map. apply map_ext. intros i. lia.
Qed.

Lemma progression_of_differences (d : Z) (l : list Z) (x : Z) :
  arithmetic_progression d (x :: l) ->
  x :: l = progression x d (S (List.length l)).
Proof.
  revert x. induction l as [|y l IH]; intros x H; rewrite progression_S.
  - reflexivity.
  - assert (Hy : y = (x + d)%Z).
    { specialize (H 0%nat). simpl in H. lia. }
    assert (Hap : arithmetic_progression d (y :: l)).
    { intros i Hi. apply (H (S i)). simpl in *. lia. }
    f_equal. rewrite <- Hy. apply (IH y Hap).
Qed.

Lemma progression_last (d : Z) (n : nat) (x : Z) :
  last (progression (x + d) d n) x = (x + Z.of_nat n * d)%Z.
Proof.
  revert x. induction n as [|n IH]; intros x.
  - simpl. lia.
  - rewrite progression_S, last_cons_default, IH. lia.
Qed.

(** The steps collected are one step [d] only if every difference between
    consecutive numbers is [d], and then there are two numbers at least. *)
Lemma group_steps_single (numbers : list Z) (d : Z) :
  Loader.group_steps numbers = [d] ->
  (2 <= List.length numbers)%nat /\ arithmetic_progression d numbers.
Proof.
  intros H. split.
  - destruct (le_lt_dec (List.length numbers) 1) as [Hle|]; [|lia].
    rewrite (group_steps_short _ Hle) in H. discriminate H.
  - apply progression_differences. rewrite group_steps_differences in H.
    assert (Hlen : (List.length (Py.groupby Z.eqb (fun x => x)
                                   (differences numbers)) <= 1)%nat).
    { apply (f_equal (@List.length Z)) in H. rewrite length_map in H.
      simpl in H. lia. }
    destruct (differences numbers) as [|a r] eqn:E; [intros x []|].
    destruct (groupby_cons (fun x => x) a r) as (g & gs & Eg).
    rewrite Eg in H. injection H as Ha _.
    intros x Hx. rewrite <- Ha.
    apply (proj1 (groupby_le_1 (fun x => x) (a :: r)) Hlen); [assumption|].
    now left.
Qed.

(** X1: a descriptor returned for a template with a placeholder describes
    the frames on disk: the path is the hash path, the frame numbers
    extracted are the [n >= 2] numbers [start], [start + step], ..., the
    last of which is [end], and neither [start] nor [step] is negative. *)
Theorem resolve_descriptor_sound
        (path spec width : string) (w : world) (p : string) (s e d : Z) :
  Loader.frame_spec_search path = Some (spec, width) ->
  outcome (Loader.get_hash_path_and_range_info_from_seq path) w =
    Return (p, s, e, d) ->
  let numbers := Loader.get_frame_numbers (matched_files w path spec) in
  p = hash_path path spec width /\
  (2 <= List.length numbers)%nat /\
  numbers = progression s d (List.length numbers) /\
  e = (s + (Z.of_nat (List.length numbers) - 1) * d)%Z /\
  (0 <= s)%Z /\ (0 <= d)%Z.
Proof.
  intros Hs Hret numbers. unfold outcome in Hret.
  assert (Hfiles : matched_files w path spec <> []).
  { intros E. rewrite (resolve_no_file _ _ _ _ Hs E) in Hret. discriminate Hret. }
  rewrite (resolve_files _ _ _ _ Hs Hfiles) in Hret. fold numbers in Hret.
  assert (Hsorted : Sorted Z.le numbers) by apply sorted_Sorted.
  assert (Hnonneg : Forall (fun n => (0 <= n)%Z) numbers)
    by apply get_frame_numbers_nonneg.
  clearbody numbers.
  destruct (1 <? List.length (Loader.group_steps numbers))%nat eqn:Elen;
    [discriminate Hret|].
  apply Nat.ltb_ge in Elen.
  destruct numbers as [|x r]; [discriminate Hret|].
  destruct (Loader.group_steps (x :: r)) as [|k ks] eqn:Esteps;
    [discriminate Hret|].
  destruct ks; [|simpl in Elen; lia].
  simpl in Hret. injection Hret as <- <- <- <-.
  destruct (group_steps_single _ _ Esteps) as [Hlen Hap].
  pose proof (progression_of_differences k r x Hap) as Hprog.
  rewrite min_from_sorted, max_from_sorted by assumption.
  split; [reflexivity|]. split; [assumption|]. split; [exact Hprog|].
  split; [|split].
  - rewrite progression_S in Hprog. injection Hprog as Hr.
    rewrite Hr at 1. rewrite progression_last. simpl List.length. lia.
  - now inversion Hnonneg.
  - destruct r as [|y r]; [simpl in Hlen; lia|].
    specialize (Hap 0%nat). simpl in Hap.
    apply Sorted_inv in Hsorted. destruct Hsorted as [_ Hd].
    apply HdRel_inv in Hd. lia.
Qed.

Lemma resolve_descriptor_sound_witness :
  let w := world_of_disk "/seq/shot.*.jpg"
             ["/seq/shot.1005.jpg"; "/seq/shot.1001.jpg"; "/seq/shot.1003.jpg"] in
  Loader.get_frame_numbers (matched_files w "/seq/shot.%04d.jpg" "%04d") =
    progression 1001 2 3 /\
  1005%Z = (1001 + (3 - 1) * 2)%Z.
Proof.
  intros w.
  destruct (resolve_descriptor_sound "/seq/shot.%04d.jpg" "%04d" "4" w
              "/seq/shot.####.jpg" 1001 1005 2 eq_refl eq_refl)
    as (_ & _ & Hnum & He & _).
  split; [exact Hnum|exact He].
Defined.

(** X2: a template with a placeholder from whose matched files, however
    many, exactly one frame number is extracted: no step is collected and
    the resolver raises [IndexError]. *)
Theorem resolve_one_frame_number (path spec width : string) (w : world) :
  Loader.frame_spec_search path = Some (spec, width) ->
  List.length (Loader.get_frame_numbers (matched_files w path spec)) = 1%nat ->
  outcome (Loader.get_hash_path_and_range_info_from_seq path) w =
    Raise (IndexError "list index out of range").
Proof.
  intros Hs Hone. unfold outcome.
  assert (Hfiles : matched_files w path spec <> []).
  { apply length_ge_1_ne.
    pose proof (frame_numbers_length (matched_files w path spec)). lia. }
  rewrite (resolve_files _ _ _ _ Hs Hfiles).
  rewrite group_steps_short by lia.
  destruct (Loader.get_frame_numbers (matched_files w path spec)) as [|x [|y r]];
    try discriminate Hone.
  reflexivity.
Qed.

Lemma resolve_one_frame_number_witness :
  outcome (Loader.get_hash_path_and_range_info_from_seq "/seq/shot.%04d.jpg")
          (world_of_disk "/seq/shot.*.jpg"
             ["/seq/shot.final.jpg"; "/seq/shot.1001.jpg"; "/seq/shot.tmp.jpg"]) =
    Raise (IndexError "list index out of range").
Proof.
  apply (resolve_one_frame_number _ "%04d" "4"); reflexivity.
Defined.



(** X4: for a template with a placeholder the resolver expands one pattern,
    the template with the placeholder turned into a star, and does nothing
    else to the world, whether it returns or raises. *)
Theorem resolve_expands_once (path spec width : string) (w : world) :
  Loader.frame_spec_search path = Some (spec, width) ->
  snd (Loader.get_hash_path_and_range_info_from_seq path w) =
    emit (Glob (Py.replace path spec "*")) w.
Proof.
  intros Hs.
  destruct (matched_files w path spec) as [|f fs] eqn:Hf.
  - now rewrite (resolve_no_file _ _ _ _ Hs Hf).
  - rewrite (resolve_files _ _ _ _ Hs) by (rewrite Hf; discriminate).
    destruct (1 <? _)%nat; [reflexivity|].
    destruct (py_min _); [|reflexivity].
    destruct (py_max _); [|reflexivity].
    destruct (py_item0 _); reflexivity.
Qed.

Lemma resolve_expands_once_witness :
  snd (Loader.get_hash_path_and_range_info_from_seq "/seq/shot.%04d.jpg"
         (world_of_disk "/seq/shot.*.jpg" [])) =
    emit (Glob "/seq/shot.*.jpg") (world_of_disk "/seq/shot.*.jpg" []).
Proof.
  exact (resolve_expands_once "/seq/shot.%04d.jpg" "%04d" "4"
           (world_of_disk "/seq/shot.*.jpg" []) eq_refl).
Defined.

(** ** Where the patterns match *)

Lemma strip_prefix_other (c x : ascii) (p r : string) :
  Ascii.eqb x c = false -> Re.strip_prefix (String c p) (String x r) = None.
Proof.
  intros H. simpl. rewrite Ascii.eqb_sym in H. now rewrite H.
Qed.

(** A search goes past the characters that cannot start a match. *)
Lemma search_skip (c : ascii) (p : string) (closing : ascii) (pre s : string) :
  without_char c pre = true ->
  Re.search (String c p) closing (pre ++ s) = Re.search (String c p) closing s.
Proof.
  induction pre as [|x pre IH]; intros H; [reflexivity|].
  cbn [without_char] in H. apply andb_true_iff in H. destruct H as [Hx Hpre].
  apply negb_true_iff in Hx.
  cbn [append Re.search]. unfold Re.match_at at 1.
  rewrite (strip_prefix_other _ _ _ _ Hx). exact (IH Hpre).
Qed.

Lemma search_here (opening : string) (closing : ascii) (ds post : string) :
  Py.is_digit closing = false -> ds <> "" -> all_digits ds = true ->
  Re.search opening closing (opening ++ ds ++ String closing post) = Some ds.
Proof.
  intros Hc Hne Hd.
  pose proof (match_at_intro opening closing Hc ds post Hne Hd) as E.
  destruct (opening ++ ds ++ String closing post); simpl; now rewrite E.
Qed.

Lemma frame_numbers_shared_beginning (pre ds : string) (rest : list string) :
  without_char "." pre = true -> ds <> "" -> all_digits ds = true ->
  Loader.get_frame_numbers
    (map (fun post => pre ++ "." ++ ds ++ String "." post) rest) =
    repeat (Py.int ds) (List.length rest).
Proof.
  intros Hpre Hne Hd. unfold Loader.get_frame_numbers.
  assert (E : Loader.collect_frame_numbers
                (map (fun post => pre ++ "." ++ ds ++ String "." post) rest) =
              repeat (Py.int ds) (List.length rest)).
  { induction rest as [|post rest IH]; [reflexivity|].
    cbn [map Loader.collect_frame_numbers List.length repeat].
    unfold Loader.frame_number_search.
    rewrite (search_skip "." "" "." pre _ Hpre).
    rewrite (search_here "." "." ds post eq_refl Hne Hd). now rewrite IH. }
  rewrite E. clear E.
  induction (List.length rest) as [|n IH]; [reflexivity|].
  cbn [repeat Py.sorted]. rewrite IH.
  destruct n; simpl; [reflexivity|]. now rewrite Z.leb_refl.
Qed.

(** X5: the frame number of a path is read after its first dot when digits
    and a dot follow it, also when this dot is in the name of a directory:
    paths that share such a beginning all have the same frame number. *)
Theorem frame_number_at_first_dot (pre ds : string) (rest : list string) :
  without_char "." pre = true -> ds <> "" -> all_digits ds = true ->
  Loader.get_frame_numbers
    (map (fun post => pre ++ "." ++ ds ++ String "." post) rest) =
    repeat (Py.int ds) (List.length rest).
Proof. apply frame_numbers_shared_beginning. Qed.

Lemma frame_number_at_first_dot_witness :
  Loader.get_frame_numbers
    (map (fun post => "/shows/v1" ++ "." ++ "2" ++ String "." post)
         ["1/shot.1001.exr"; "1/shot.1002.exr"]) = repeat 2%Z 2.
Proof.
  apply (frame_number_at_first_dot "/shows/v1" "2"); [reflexivity| |reflexivity].
  discriminate.
Defined.

Lemma progression_repeat (n : Z) (k : nat) :
  arithmetic_progression 0 (repeat n k).
Proof.
  intros i Hi. rewrite repeat_length in Hi.
  rewrite (nth_indep _ 0%Z n), (nth_indep _ 0%Z n (n := i))
    by (rewrite repeat_length; lia).
  rewrite !nth_repeat. lia.
Qed.

Lemma repeat_sorted (x : Z) (m : nat) : Sorted Z.le (repeat x m).
Proof.
  induction m as [|m IH]; cbn [repeat]; constructor; [exact IH|].
  destruct m; cbn [repeat]; constructor. lia.
Qed.

Lemma last_repeat (x : Z) (m : nat) : last (repeat x m) x = x.
Proof.
  induction m as [|m IH]; [reflexivity|].
  cbn [repeat]. now rewrite last_cons_default.
Qed.

(** X6: a template whose matched files, two or more, share a beginning
    with digits between its first two dots: every file has the number of
    that beginning, and the resolver returns it as start and as end, with
    step 0, whatever the frames of the files are. *)
Theorem resolve_dotted_directory
        (path spec width pre ds : string) (rest : list string) (w : world) :
  Loader.frame_spec_search path = Some (spec, width) ->
  matched_files w path spec =
    map (fun post => pre ++ "." ++ ds ++ String "." post) rest ->
  without_char "." pre = true -> ds <> "" -> all_digits ds = true ->
  (2 <= List.length rest)%nat ->
  outcome (Loader.get_hash_path_and_range_info_from_seq path) w =
    Return (hash_path path spec width, Py.int ds, Py.int ds, 0%Z).
Proof.
  intros Hs Hfiles Hpre Hne Hd Hlen. unfold outcome.
  assert (Hnum : Loader.get_frame_numbers (matched_files w path spec) =
                 repeat (Py.int ds) (List.length rest)).
  { rewrite Hfiles. now apply frame_numbers_shared_beginning. }
  rewrite (resolve_files _ _ _ _ Hs).
  2:{ rewrite Hfiles. destruct rest; [simpl in Hlen; lia|discriminate]. }
  rewrite Hnum.
  rewrite (group_steps_progression 0 (repeat (Py.int ds) (List.length rest)))
    by (rewrite ?repeat_length; auto using progression_repeat).
  destruct (List.length rest) as [|[|k]]; try lia.
  change (repeat (Py.int ds) (S (S k)))
    with (Py.int ds :: repeat (Py.int ds) (S k)).
  cbn [py_min py_max py_item0 Nat.ltb Nat.leb List.length fst].
  assert (Hsorted : Sorted Z.le (Py.int ds :: repeat (Py.int ds) (S k)))
    by apply (repeat_sorted (Py.int ds) (S (S k))).
  rewrite (min_from_sorted _ _ Hsorted), (max_from_sorted _ _ Hsorted).
  now rewrite last_repeat.
Qed.

Lemma resolve_dotted_directory_witness :
  outcome (Loader.get_hash_path_and_range_info_from_seq
             "/shows/v1.2.1/shot.%04d.exr")
          (world_of_disk "/shows/v1.2.1/shot.*.exr"
             (map (fun post => "/shows/v1" ++ "." ++ "2" ++ String "." post)
                  ["1/shot.1001.exr"; "1/shot.1002.exr"; "1/shot.1003.exr"])) =
    Return ("/shows/v1.2.1/shot.####.exr", 2, 2, 0)%Z.
Proof.
  refine (resolve_dotted_directory "/shows/v1.2.1/shot.%04d.exr" "%04d" "4"
            "/shows/v1" "2"
            ["1/shot.1001.exr"; "1/shot.1002.exr"; "1/shot.1003.exr"]
            (world_of_disk "/shows/v1.2.1/shot.*.exr"
               (map (fun post => "/shows/v1" ++ "." ++ "2" ++ String "." post)
                    ["1/shot.1001.exr"; "1/shot.1002.exr"; "1/shot.1003.exr"]))
            eq_refl eq_refl eq_refl _ eq_refl _).
  - discriminate.
  - simpl. lia.
Defined.

Lemma startswith_other (c x : ascii) (p r : string) :
  Ascii.eqb x c = false -> Py.startswith (String x r) (String c p) = false.
Proof. intros H. simpl. rewrite Ascii.eqb_sym in H. now rewrite H. Qed.

Lemma replace_without (c : ascii) (old' new s : string) :
  without_char c s = true -> Py.replace s (String c old') new = s.
Proof.
  induction s as [|x s IH]; intros H; [reflexivity|].
  cbn [without_char] in H. apply andb_true_iff in H. destruct H as [Hx Hs].
  apply negb_true_iff in Hx.
  rewrite replace_no_occurrence by now apply startswith_other.
  now rewrite (IH Hs).
Qed.

Lemma replace_one (c : ascii) (old' new pre post : string) :
  without_char c pre = true -> without_char c post = true ->
  Py.replace (pre ++ String c old' ++ post) (String c old') new =
    pre ++ new ++ post.
Proof.
  intros Hpre Hpost. induction pre as [|x pre IH].
  - change ("" ++ String c old' ++ post) with (String c old' ++ post).
    rewrite replace_occurrence by discriminate.
    now rewrite (replace_without _ _ _ _ Hpost).
  - cbn [without_char] in Hpre. apply andb_true_iff in Hpre.
    destruct Hpre as [Hx Hpre]. apply negb_true_iff in Hx.
    change (String x pre ++ String c old' ++ post)
      with (String x (pre ++ String c old' ++ post)).
    rewrite replace_no_occurrence by now apply startswith_other.
    now rewrite (IH Hpre).
Qed.

(** X7: a template made of a beginning, the placeholder [%0Nd] and an end,
    the percent sign occurring in the placeholder only: the placeholder is
    found with its width, the pattern handed to [glob.glob] is the template
    with a star in its place, and the path returned has [N] hash characters
    in its place, beginning and end unchanged. *)
Theorem template_with_one_placeholder (pre ds post : string) :
  without_char "%" pre = true -> without_char "%" post = true ->
  ds <> "" -> all_digits ds = true ->
  let spec := "%0" ++ ds ++ "d" in
  let path := pre ++ spec ++ post in
  Loader.frame_spec_search path = Some (spec, ds) /\
  glob_pattern path spec = pre ++ "*" ++ post /\
  hash_path path spec ds =
    pre ++ Py.repeat_char "#" (Z.to_nat (Py.int ds)) ++ post.
Proof.
  intros Hpre Hpost Hne Hd spec path. split; [|split].
  - unfold Loader.frame_spec_search, path.
    rewrite (search_skip "%" "0" "d" pre _ Hpre).
    replace (spec ++ post) with ("%0" ++ ds ++ String "d" post).
    + now rewrite (search_here "%0" "d" ds post eq_refl Hne Hd).
    + unfold spec. cbn [append]. do 2 f_equal.
      change (String "d" post) with ("d" ++ post). now rewrite str_app_assoc.
  - unfold glob_pattern, path, spec.
    apply (replace_one "%" ("0" ++ ds ++ "d") "*" pre post Hpre Hpost).
  - unfold hash_path, path, spec.
    apply (replace_one "%" ("0" ++ ds ++ "d") _ pre post Hpre Hpost).
Qed.

Lemma template_with_one_placeholder_witness :
  Loader.frame_spec_search ("/seq/shot." ++ ("%0" ++ "4" ++ "d") ++ ".jpg") =
    Some ("%0" ++ "4" ++ "d", "4") /\
  glob_pattern ("/seq/shot." ++ ("%0" ++ "4" ++ "d") ++ ".jpg")
               ("%0" ++ "4" ++ "d") = "/seq/shot." ++ "*" ++ ".jpg" /\
  hash_path ("/seq/shot." ++ ("%0" ++ "4" ++ "d") ++ ".jpg")
            ("%0" ++ "4" ++ "d") "4" =
    "/seq/shot." ++ Py.repeat_char "#" (Z.to_nat (Py.int "4")) ++ ".jpg".
Proof.
  apply (template_with_one_placeholder "/seq/shot." "4" ".jpg");
    try reflexivity.
  discriminate.
Defined.

(** ** The import: when there is nothing to assign *)

Lemma selected_sequence_cameras_ext (w w' : world) :
  cameras w' = cameras w ->
  selected_sequence_cameras w' = selected_sequence_cameras w.
Proof.
  intros H. unfold selected_sequence_cameras, camera_type. now rewrite H.
Qed.

(** The import after a resolution that returns: the two warnings or the
    loop over the selected sequence cameras. *)
Lemma import_unfold (self : Loader.hook) (path : string) (data : pyval)
      (w wr : world) (p : string) (s e d : Z) :
  Loader.get_hash_path_and_range_info_from_seq path w =
    (Return (p, s, e, d), wr) ->
  Loader._import_image_seq self path data w =
    if (Z.of_nat (List.length (cameras wr)) =? 0)%Z
    then (Return tt,
          emit (QMessageBox_warning "No cameras exist"
                  "Please create a sequence camera and try again") wr)
    else
      match selected_sequence_cameras wr with
      | [] =>
          (Return tt,
           emit (QMessageBox_warning "No sequence cameras selected"
                   "Please select a sequence camera and try again") wr)
      | c0 :: l =>
          for_each (c0 :: l)
            (Loader.assign_camera
               (Loader.context_entity_name (Loader.parent self)) p s e d)
            (emit (Log INFO "%d sequence cameras selected, assigning to all"
                       [LInt (Z.of_nat (List.length (c0 :: l)))]) wr)
      end.
Proof.
  intros Hres. unfold Loader._import_image_seq. unfold bind at 1.
  rewrite Hres. cbv beta iota. unfold bind at 1.
  change (tde4.getNoCameras wr)
    with (Return (Z.of_nat (List.length (cameras wr))), wr).
  cbv beta iota.
  destruct (Z.of_nat (List.length (cameras wr)) =? 0)%Z; [reflexivity|].
  unfold bind at 1. rewrite getCameraList_selected. cbv beta iota.
  unfold bind at 1. rewrite filterM_is_sequence_camera. cbv beta iota.
  fold (selected_sequence_cameras wr).
  destruct (selected_sequence_cameras wr) as [|c0 l]; reflexivity.
Qed.

Lemma import_raises (self : Loader.hook) (path : string) (data : pyval)
      (w : world) (e : exn) :
  outcome (Loader.get_hash_path_and_range_info_from_seq path) w = Raise e ->
  Loader._import_image_seq self path data w =
    (Raise e, snd (Loader.get_hash_path_and_range_info_from_seq path w)).
Proof.
  unfold outcome, Loader._import_image_seq, bind.
  destruct (Loader.get_hash_path_and_range_info_from_seq path w) as [[d|e'] w'];
    simpl; [discriminate|]. now intros [= ->].
Qed.

(** The outcome of a resolution depends on the disk only. *)
Lemma resolver_outcome_disk (path : string) (w w' : world) :
  fs_glob w' = fs_glob w ->
  outcome (Loader.get_hash_path_and_range_info_from_seq path) w' =
  outcome (Loader.get_hash_path_and_range_info_from_seq path) w.
Proof.
  intros H. unfold outcome.
  destruct (Loader.frame_spec_search path) as [[spec width]|] eqn:Hs.
  - assert (Hf : matched_files w' path spec = matched_files w path spec).
    { unfold matched_files. now rewrite H. }
    destruct (matched_files w path spec) as [|f fs] eqn:E.
    + now rewrite (resolve_no_file _ _ _ _ Hs E),
        (resolve_no_file _ _ _ w' Hs Hf).
    + rewrite (resolve_files _ _ _ w Hs) by (rewrite E; discriminate).
      rewrite (resolve_files _ _ _ w' Hs) by (rewrite Hf; discriminate).
      rewrite Hf, E.
      destruct (1 <? _)%nat; [reflexivity|].
      destruct (py_min _); [|reflexivity].
      destruct (py_max _); [|reflexivity].
      destruct (py_item0 _); reflexivity.
  - now rewrite !(resolve_search_fails _ _ Hs).
Qed.

(** All that a resolution adds to the trace is pattern expansions. *)
Lemma resolver_added (path : string) (w : world) :
  let w1 := snd (Loader.get_hash_path_and_range_info_from_seq path w) in
  cameras w1 = cameras w /\ fs_glob w1 = fs_glob w /\
  project_path w1 = project_path w /\
  exists evs, trace w1 = (trace w ++ evs)%list /\
              forall ev, In ev evs -> exists pattern, ev = Glob pattern.
Proof.
  assert (H : snd (Loader.get_hash_path_and_range_info_from_seq path w) = w \/
              exists pattern,
                snd (Loader.get_hash_path_and_range_info_from_seq path w) =
                emit (Glob pattern) w).
  { destruct (Loader.frame_spec_search path) as [[spec width]|] eqn:Hs.
    - right. exists (glob_pattern path spec).
      destruct (matched_files w path spec) as [|f fs] eqn:Hf.
      + now rewrite (resolve_no_file _ _ _ _ Hs Hf).
      + rewrite (resolve_files _ _ _ _ Hs) by (rewrite Hf; discriminate).
        destruct (1 <? _)%nat; [reflexivity|].
        destruct (py_min _); [|reflexivity].
        destruct (py_max _); [|reflexivity].
        destruct (py_item0 _); reflexivity.
    - left. now rewrite resolve_search_fails. }
  destruct H as [->|[pattern ->]].
  - repeat split. exists []. split; [now rewrite app_nil_r|]. intros ev [].
  - repeat split. exists [Glob pattern]. split; [reflexivity|].
    intros ev [<-|[]]. now exists pattern.
Qed.

(** X8: when the template of an import does not resolve, [execute_action]
    raises what the resolver raises: it has logged its call and the
    resolver has expanded at most one pattern, but no camera has changed,
    the host has not been called and no dialog has been shown. *)
Theorem execute_action_resolution_error
        (self : Loader.hook) (params data : pyval) (path : string)
        (w : world) (e : exn) :
  Loader.get_publish_path self data = Return path ->
  outcome (Loader.get_hash_path_and_range_info_from_seq path) w = Raise e ->
  exists w',
    Loader.execute_action self "import_image_seq" params data w = (Raise e, w') /\
    cameras w' = cameras w /\
    (forall c, ~ In (Tde4 c) (added w w')) /\
    (forall title text, ~ In (QMessageBox_warning title text) (added w w')).
Proof.
  intros Hpath Hres.
  set (wl := emit (Log DEBUG
                     "Execute action called for action %s. Parameters: %s. Publish Data: %s"
                     [LStr "import_image_seq"; LVal params; LVal data]) w).
  assert (Hres' : outcome (Loader.get_hash_path_and_range_info_from_seq path) wl
                  = Raise e).
  { rewrite <- Hres. now apply resolver_outcome_disk. }
  destruct (resolver_added path wl) as (Hcams & _ & _ & evs & Htrace & Hglob).
  assert (Hquiet : forall c, ~ In (Tde4 c) evs).
  { intros c Hin. destruct (Hglob _ Hin) as [pattern E]. discriminate E. }
  assert (Hevs : forall title text, ~ In (QMessageBox_warning title text) evs).
  { intros title text Hin. destruct (Hglob _ Hin) as [pattern E].
    discriminate E. }
  exists (snd (Loader.get_hash_path_and_range_info_from_seq path wl)).
  split; [|split; [|split]].
  - unfold Loader.execute_action. unfold bind at 1.
    change (tde4.logger DEBUG
              "Execute action called for action %s. Parameters: %s. Publish Data: %s"
              [LStr "import_image_seq"; LVal params; LVal data] w)
      with (Return tt, wl).
    cbv beta iota. unfold bind at 1. unfold lift. rewrite Hpath.
    cbv beta iota. cbn [String.eqb Ascii.eqb Bool.eqb].
    now apply import_raises.
  - exact Hcams.
  - intros c Hin.
    rewrite (added_app w _ (Log DEBUG
                     "Execute action called for action %s. Parameters: %s. Publish Data: %s"
                     [LStr "import_image_seq"; LVal params; LVal data] :: evs))
      in Hin by (rewrite Htrace; unfold wl; cbn [trace emit];
                 now rewrite <- app_assoc).
    destruct Hin as [E|Hin]; [discriminate E|exact (Hquiet c Hin)].
  - intros title text Hin.
    rewrite (added_app w _ (Log DEBUG
                     "Execute action called for action %s. Parameters: %s. Publish Data: %s"
                     [LStr "import_image_seq"; LVal params; LVal data] :: evs))
      in Hin by (rewrite Htrace; unfold wl; cbn [trace emit];
                 now rewrite <- app_assoc).
    destruct Hin as [E|Hin]; [discriminate E|exact (Hevs _ _ Hin)].
Qed.

Lemma execute_action_resolution_error_witness :
  exists w',
    Loader.execute_action shot_hook "import_image_seq" (PDict [])
      (PDict [("path", PStr "/seq/missing.%04d.jpg")]) shot_world =
      (Raise (new_FileExistenceError "/seq/missing.%04d.jpg"), w') /\
    cameras w' = cameras shot_world.
Proof.
  destruct (execute_action_resolution_error shot_hook (PDict [])
              (PDict [("path", PStr "/seq/missing.%04d.jpg")])
              "/seq/missing.%04d.jpg" shot_world
              (new_FileExistenceError "/seq/missing.%04d.jpg")
              eq_refl eq_refl)
    as (w' & Hrun & Hcams & _).
  exists w'. split; [exact Hrun|exact Hcams].
Defined.



(** ** The import: what it leaves behind *)

(** A loop whose turns all return and keep an invariant that knows the
    elements [done] so far. *)
Lemma for_each_invariant {A} (body : A -> M unit) (ok : A -> Prop)
      (I : list A -> world -> Prop) :
  (forall x done w, ok x -> I done w ->
     exists w', body x w = (Return tt, w') /\ I (x :: done) w') ->
  forall l, Forall ok l ->
  forall done w, I done w ->
    exists w', for_each l body w = (Return tt, w') /\ I (List.rev l ++ done)%list w'.
Proof.
  intros Hstep l Hok. induction Hok as [|x l Hx _ IH]; intros done w Hinv.
  - exists w. now split.
  - destruct (Hstep x done w Hx Hinv) as (w1 & Hrun & Hinv1).
    destruct (IH _ _ Hinv1) as (w' & Hrun' & Hinv').
    exists w'. split.
    + cbn [for_each]. unfold bind. now rewrite Hrun.
    + cbn [List.rev]. now rewrite <- app_assoc.
Qed.

(** One turn of the loop as an update of the camera [cam0]: the update
    keeps the identifier, the type and the selection of the camera, gives
    it the attributes of the sequence, and keeps its name or gives it a
    candidate that no camera has. *)
Lemma assign_camera_update (name path : string) (start stop step : Z)
      (cam0 : positive) (w : world) :
  exists w' f evs,
    Loader.assign_camera name path start stop step cam0 w = (Return tt, w') /\
    cameras w' = tde4.update cam0 f (cameras w) /\
    fs_glob w' = fs_glob w /\ project_path w' = project_path w /\
    trace w' = (trace w ++ evs)%list /\
    (forall c, cam_id (f c) = cam_id c /\ cam_type (f c) = cam_type c /\
               cam_selected (f c) = cam_selected c /\
               has_attributes path start stop step (f c)) /\
    ((Py.startswith (current_name w cam0) name = true /\
      (forall c, cam_name (f c) = cam_name c) /\
      (forall c n, ~ In (Tde4 (setCameraName c n)) evs))
     \/
     (Py.startswith (current_name w cam0) name = false /\
      exists k, (forall c, cam_name (f c) = candidate name k) /\
                ~ name_taken w (candidate name k))).
Proof.
  destruct (Py.startswith (current_name w cam0) name) eqn:Hs.
  - exists (mkWorld (fs_glob w)
              (tde4.update cam0 (set_attributes path start stop step) (cameras w))
              (project_path w)
              (trace w ++
                 [ Log DEBUG "Current camera: '%s'" [LStr (current_name w cam0)];
                   Log INFO "'%s' already has name referring to Shot"
                       [LStr (current_name w cam0)] ] ++
                 attribute_events cam0 path start stop step)).
    exists (set_attributes path start stop step). eexists.
    split; [apply (assign_camera_named _ _ _ _ _ _ _ Hs)|].
    cbn [cameras fs_glob project_path trace].
    repeat split; try reflexivity.
    left. repeat split; try reflexivity.
    intros c n Hin. apply in_app_iff in Hin.
    destruct Hin as [[E|[E|[]]]|Hin]; try discriminate E.
    apply in_attribute_events in Hin.
    destruct Hin as [E|[E|[E|E]]]; discriminate E.
  - destruct (assign_camera_renamed name path start stop step cam0 w Hs)
      as (k & Hrun & Hfree & _).
    eexists.
    exists (fun c => set_attributes path start stop step
                       (tde4.set_name (candidate name k) c)).
    eexists. split; [exact Hrun|].
    cbn [cameras fs_glob project_path trace].
    split; [now rewrite update_update by reflexivity|].
    repeat split; try reflexivity.
    right. split; [reflexivity|]. exists k. now split.
Qed.

Lemma map_update_keep {B} (g : camera -> B) (cam : positive)
      (f : camera -> camera) (cs : list camera) :
  (forall c, g (f c) = g c) -> map g (tde4.update cam f cs) = map g cs.
Proof.
  intros H. unfold tde4.update. rewrite map_map. apply map_ext.
  intros c. destruct (Pos.eqb (cam_id c) cam); [apply H|reflexivity].
Qed.

(** The import has returned: the resolution has returned, and the import
    has shown a warning or run the loop. *)
Lemma import_returned (self : Loader.hook) (path : string) (data : pyval)
      (w w' : world) :
  Loader._import_image_seq self path data w = (Return tt, w') ->
  exists p s e d wr,
    Loader.get_hash_path_and_range_info_from_seq path w =
      (Return (p, s, e, d), wr) /\
    cameras wr = cameras w /\ fs_glob wr = fs_glob w /\
    ((cameras w' = cameras wr /\ fs_glob w' = fs_glob wr /\
      (exists title text, w' = emit (QMessageBox_warning title text) wr) /\
      selected_sequence_cameras w = [])
     \/
     (selected_sequence_cameras w <> [] /\
      for_each (selected_sequence_cameras w)
        (Loader.assign_camera
           (Loader.context_entity_name (Loader.parent self)) p s e d)
        (emit (Log INFO "%d sequence cameras selected, assigning to all"
                   [LInt (Z.of_nat (List.length (selected_sequence_cameras w)))])
              wr) = (Return tt, w'))).
Proof.
  intros Hrun.
  destruct (Loader.get_hash_path_and_range_info_from_seq path w)
    as [[[[[p s] e] d]|ex] wr] eqn:Hres.
  2:{ rewrite (import_raises self path data w ex) in Hrun
        by (unfold outcome; now rewrite Hres).
      discriminate Hrun. }
  exists p, s, e, d, wr. split; [reflexivity|].
  destruct (resolver_added path w) as (Hcams & Hfs & _).
  rewrite Hres in Hcams, Hfs. cbn [snd] in Hcams, Hfs.
  split; [assumption|]. split; [assumption|].
  rewrite (import_unfold _ _ _ _ _ _ _ _ _ Hres) in Hrun.
  rewrite (selected_sequence_cameras_ext _ _ Hcams) in Hrun.
  destruct (Z.of_nat (List.length (cameras wr)) =? 0)%Z eqn:En.
  - injection Hrun as <-. left. repeat split; eauto.
    apply Z.eqb_eq in En. rewrite Hcams in En.
    unfold selected_sequence_cameras.
    destruct (cameras w); [reflexivity|discriminate En].
  - destruct (selected_sequence_cameras w) as [|c0 l] eqn:El.
    + injection Hrun as <-. left. repeat split; eauto.
    + right. split; [discriminate|exact Hrun].
Qed.

Section LoopResults.
Variables (name path : string) (start stop step : Z).
Variable ws : world.

Local Abbreviation body := (Loader.assign_camera name path start stop step).

(** Every camera that has had its turn has a name that starts with [name]
    and the attributes of the sequence. *)
Lemma loop_assigns (l : list positive) :
  Forall (fun cam => tde4.lookup cam (cameras ws) <> None) l ->
  exists w',
    for_each l body ws = (Return tt, w') /\
    forall cam, In cam l ->
      Py.startswith (current_name w' cam) name = true /\
      exists c', tde4.lookup cam (cameras w') = Some c' /\
                 has_attributes path start stop step c'.
Proof.
  intros Hok.
  destruct (for_each_invariant body
              (fun cam => tde4.lookup cam (cameras ws) <> None)
              (fun done w =>
                 (forall cam', tde4.lookup cam' (cameras ws) <> None ->
                               tde4.lookup cam' (cameras w) <> None) /\
                 forall cam, In cam done ->
                   Py.startswith (current_name w cam) name = true /\
                   exists c', tde4.lookup cam (cameras w) = Some c' /\
                              has_attributes path start stop step c'))
    with (l := l) (done := @nil positive) (w := ws) as (w' & Hrun & _ & Hpost).
  - intros x done w Hx [Hkeep Hdone].
    destruct (assign_camera_update name path start stop step x w)
      as (w' & f & evs & Hrun & Hcams & _ & _ & _ & Hf & Hcase).
    assert (Hid : forall c, cam_id (f c) = cam_id c) by (intros c; apply Hf).
    exists w'. split; [exact Hrun|]. split.
    + intros cam' Hc. rewrite Hcams.
      destruct (Pos.eq_dec cam' x) as [->|Hne].
      * rewrite lookup_update_same by assumption.
        specialize (Hkeep x Hc). now destruct (tde4.lookup x (cameras w)).
      * rewrite lookup_update_other by assumption. now apply Hkeep.
    + intros cam Hin. destruct (Pos.eq_dec cam x) as [->|Hne].
      * destruct (tde4.lookup x (cameras w)) as [c|] eqn:Ec;
          [|now destruct (Hkeep x Hx)].
        assert (El : tde4.lookup x (cameras w') = Some (f c)).
        { now rewrite Hcams, lookup_update_same, Ec by assumption. }
        split.
        -- unfold current_name. rewrite El.
           destruct Hcase as [(Hs & Hname & _)|(_ & k & Hname & _)].
           ++ rewrite Hname. unfold current_name in Hs. now rewrite Ec in Hs.
           ++ rewrite Hname. apply startswith_candidate.
        -- exists (f c). split; [exact El|apply Hf].
      * destruct Hin as [E|Hin]; [congruence|].
        assert (El : tde4.lookup cam (cameras w') = tde4.lookup cam (cameras w)).
        { now rewrite Hcams, lookup_update_other by assumption. }
        unfold current_name. rewrite El. exact (Hdone cam Hin).
  - exact Hok.
  - split; [auto|]. intros cam [].
  - exists w'. split; [exact Hrun|]. intros cam Hin. apply Hpost.
    rewrite app_nil_r. now apply -> in_rev.
Qed.

(** A camera that has no turn is left as it is. *)
Lemma loop_frame (l : list positive) :
  exists w',
    for_each l body ws = (Return tt, w') /\
    fs_glob w' = fs_glob ws /\ project_path w' = project_path ws /\
    map cam_id (cameras w') = map cam_id (cameras ws) /\
    map cam_type (cameras w') = map cam_type (cameras ws) /\
    map cam_selected (cameras w') = map cam_selected (cameras ws) /\
    forall cam, ~ In cam l ->
      tde4.lookup cam (cameras w') = tde4.lookup cam (cameras ws).
Proof.
  destruct (for_each_invariant body (fun cam => In cam l)
              (fun _ w =>
                 fs_glob w = fs_glob ws /\ project_path w = project_path ws /\
                 map cam_id (cameras w) = map cam_id (cameras ws) /\
                 map cam_type (cameras w) = map cam_type (cameras ws) /\
                 map cam_selected (cameras w) = map cam_selected (cameras ws) /\
                 forall cam, ~ In cam l ->
                   tde4.lookup cam (cameras w) = tde4.lookup cam (cameras ws)))
    with (l := l) (done := @nil positive) (w := ws) as (w' & Hrun & Hinv).
  - intros x _ w Hx (Hfs & Hpp & Hids & Htypes & Hsel & Hframe).
    destruct (assign_camera_update name path start stop step x w)
      as (w' & f & evs & Hrun & Hcams & Hfs' & Hpp' & _ & Hf & _).
    exists w'. split; [exact Hrun|]. rewrite Hcams.
    repeat split; try congruence.
    + rewrite map_update_keep; [assumption|]. intros c. apply Hf.
    + rewrite map_update_keep; [assumption|]. intros c. apply Hf.
    + rewrite map_update_keep; [assumption|]. intros c. apply Hf.
    + intros cam Hcam. rewrite lookup_update_other.
      * now apply Hframe.
      * intros c. apply Hf.
      * intros ->. contradiction.
  - apply Forall_forall. auto.
  - repeat split.
  - exists w'. split; [exact Hrun|]. exact Hinv.
Qed.

End LoopResults.



(** X11: an import whose template resolves changes no camera but the
    selected sequence cameras: every other camera is left as it is, and no
    camera changes its identifier, its type or its selection; the disk and
    the path of the project are as before. *)
Theorem import_leaves_other_cameras
        (self : Loader.hook) (path : string) (data : pyval) (w wr : world)
        (p : string) (s e d : Z) :
  Loader.get_hash_path_and_range_info_from_seq path w =
    (Return (p, s, e, d), wr) ->
  exists w',
    Loader._import_image_seq self path data w = (Return tt, w') /\
    fs_glob w' = fs_glob w /\ project_path w' = project_path w /\
    map cam_id (cameras w') = map cam_id (cameras w) /\
    map cam_type (cameras w') = map cam_type (cameras w) /\
    map cam_selected (cameras w') = map cam_selected (cameras w) /\
    forall cam, ~ In cam (selected_sequence_cameras w) ->
      tde4.lookup cam (cameras w') = tde4.lookup cam (cameras w).
Proof.
  intros Hres. rewrite (import_unfold _ _ _ _ _ _ _ _ _ Hres).
  destruct (resolver_added path w) as (Hcams & Hfs & Hpp & _).
  rewrite Hres in Hcams, Hfs, Hpp. cbn [snd] in Hcams, Hfs, Hpp.
  rewrite (selected_sequence_cameras_ext _ _ Hcams).
  destruct (Z.of_nat (List.length (cameras wr)) =? 0)%Z.
  - eexists. split; [reflexivity|]. cbn [fs_glob project_path cameras emit].
    rewrite Hcams. repeat split; assumption.
  - destruct (selected_sequence_cameras w) as [|c0 l] eqn:El.
    + eexists. split; [reflexivity|]. cbn [fs_glob project_path cameras emit].
      rewrite Hcams. repeat split; assumption.
    + destruct (loop_frame (Loader.context_entity_name (Loader.parent self))
                  p s e d
                  (emit (Log INFO "%d sequence cameras selected, assigning to all"
                             [LInt (Z.of_nat (List.length (c0 :: l)))]) wr)
                  (c0 :: l))
        as (w' & Hrun & Hfs' & Hpp' & Hids & Htypes & Hsel & Hframe).
      cbn [fs_glob project_path cameras emit] in *.
      exists w'. split; [exact Hrun|]. rewrite <- Hcams.
      repeat split; try congruence. exact Hframe.
Qed.

Lemma import_leaves_other_cameras_witness :
  exists w',
    Loader._import_image_seq shot_hook "/seq/shot.%04d.jpg" PNone
                             two_camera_world = (Return tt, w') /\
    tde4.lookup 3 (cameras w') = Some (sequence_camera 3 "shot010" false).
Proof.
  destruct (import_leaves_other_cameras shot_hook "/seq/shot.%04d.jpg"
              PNone two_camera_world
              (emit (Glob "/seq/shot.*.jpg") two_camera_world)
              "/seq/shot.####.jpg" 1001 1003 1 eq_refl)
    as (w' & Hrun & _ & _ & _ & _ & _ & Hframe).
  exists w'. split; [exact Hrun|].
  rewrite (Hframe 3%positive); [reflexivity|].
  vm_compute. intros [E|[E|[]]]; discriminate E.
Defined.

(** *** Camera names stay different *)

Lemma update_absent (cam : positive) (f : camera -> camera) (cs : list camera) :
  ~ In cam (map cam_id cs) -> tde4.update cam f cs = cs.
Proof.
  unfold tde4.update. induction cs as [|c cs IH]; intros H; [reflexivity|].
  cbn [map] in *. destruct (Pos.eqb (cam_id c) cam) eqn:E.
  - apply Pos.eqb_eq in E. exfalso. apply H. now left.
  - rewrite IH; [reflexivity|]. intros Hin. apply H. now right.
Qed.

Lemma in_names_update (cam : positive) (f : camera -> camera) (n x : string)
      (cs : list camera) :
  (forall c, cam_name (f c) = n) ->
  In x (map cam_name (tde4.update cam f cs)) ->
  x = n \/ In x (map cam_name cs).
Proof.
  intros Hf. unfold tde4.update. induction cs as [|c cs IH]; [intros []|].
  cbn [map]. intros [E|Hin].
  - destruct (Pos.eqb (cam_id c) cam).
    + left. now rewrite <- E, Hf.
    + right. now left.
  - destruct (IH Hin) as [->|H]; [now left|right; now right].
Qed.

Lemma names_update_fresh (cam : positive) (f : camera -> camera) (n : string)
      (cs : list camera) :
  (forall c, cam_name (f c) = n) ->
  NoDup (map cam_id cs) -> NoDup (map cam_name cs) ->
  ~ In n (map cam_name cs) ->
  NoDup (map cam_name (tde4.update cam f cs)).
Proof.
  intros Hf. induction cs as [|c cs IH]; intros Hids Hnames Hfresh;
    [constructor|].
  cbn [map] in Hids, Hnames, Hfresh.
  apply NoDup_cons_iff in Hids. destruct Hids as [Hid Hids].
  apply NoDup_cons_iff in Hnames. destruct Hnames as [Hname Hnames].
  change (tde4.update cam f (c :: cs))
    with ((if Pos.eqb (cam_id c) cam then f c else c) :: tde4.update cam f cs).
  destruct (Pos.eqb (cam_id c) cam) eqn:E; cbn [map]; constructor.
  - apply Pos.eqb_eq in E. rewrite update_absent by congruence.
    rewrite Hf. intros Hin. apply Hfresh. now right.
  - apply Pos.eqb_eq in E. now rewrite update_absent by congruence.
  - intros Hin. destruct (in_names_update _ _ _ _ _ Hf Hin) as [E'|Hin'].
    + apply Hfresh. now left.
    + contradiction.
  - apply IH; try assumption. intros Hin. apply Hfresh. now right.
Qed.

Lemma loop_unique_names (name path : string) (start stop step : Z)
      (ws : world) (l : list positive) :
  NoDup (map cam_id (cameras ws)) -> NoDup (map cam_name (cameras ws)) ->
  exists w',
    for_each l (Loader.assign_camera name path start stop step) ws =
      (Return tt, w') /\
    NoDup (map cam_name (cameras w')).
Proof.
  intros Hids Hnames.
  destruct (for_each_invariant
              (Loader.assign_camera name path start stop step)
              (fun _ => True)
              (fun _ w => NoDup (map cam_id (cameras w)) /\
                          NoDup (map cam_name (cameras w))))
    with (l := l) (done := @nil positive) (w := ws) as (w' & Hrun & _ & Hinv).
  - intros x _ w _ [Hi Hn].
    destruct (assign_camera_update name path start stop step x w)
      as (w' & f & evs & Hrun & Hcams & _ & _ & _ & Hf & Hcase).
    exists w'. split; [exact Hrun|]. rewrite Hcams. split.
    + rewrite map_update_keep; [assumption|]. intros c. apply Hf.
    + destruct Hcase as [(_ & Hname & _)|(_ & k & Hname & Hfree)].
      * now rewrite map_update_keep.
      * now apply (names_update_fresh x f (candidate name k)).
  - apply Forall_forall. auto.
  - now split.
  - exists w'. now split.
Qed.

(** X12: in a project whose cameras have different identifiers and
    different names, an import whose template resolves returns and leaves
    the cameras with different names: a camera that is renamed gets a name
    that no camera has. *)
Theorem import_keeps_names_different
        (self : Loader.hook) (path : string) (data : pyval) (w wr : world)
        (p : string) (s e d : Z) :
  Loader.get_hash_path_and_range_info_from_seq path w =
    (Return (p, s, e, d), wr) ->
  NoDup (map cam_id (cameras w)) -> NoDup (map cam_name (cameras w)) ->
  exists w',
    Loader._import_image_seq self path data w = (Return tt, w') /\
    NoDup (map cam_name (cameras w')).
Proof.
  intros Hres Hids Hnames. rewrite (import_unfold _ _ _ _ _ _ _ _ _ Hres).
  destruct (resolver_added path w) as (Hcams & _).
  rewrite Hres in Hcams. cbn [snd] in Hcams.
  destruct (Z.of_nat (List.length (cameras wr)) =? 0)%Z.
  - eexists. split; [reflexivity|]. cbn [cameras emit]. now rewrite Hcams.
  - destruct (selected_sequence_cameras wr) as [|c0 l].
    + eexists. split; [reflexivity|]. cbn [cameras emit]. now rewrite Hcams.
    + apply loop_unique_names; cbn [cameras emit]; now rewrite Hcams.
Qed.

Lemma import_keeps_names_different_witness :
  exists w',
    Loader._import_image_seq shot_hook "/seq/shot.%04d.jpg" PNone
                             two_camera_world = (Return tt, w') /\
    NoDup (map cam_name (cameras w')).
Proof.
  apply (import_keeps_names_different shot_hook "/seq/shot.%04d.jpg" PNone
           two_camera_world (emit (Glob "/seq/shot.*.jpg") two_camera_world)
           "/seq/shot.####.jpg" 1001 1003 1 eq_refl).
  - repeat constructor; simpl; intuition discriminate.
  - repeat constructor; simpl; intuition discriminate.
Defined.

(** *** Importing again *)

(** Cameras with the same identifiers, types and selections in the same
    order give the same selected sequence cameras. *)
Lemma selected_sequence_cameras_shape (w w' : world) :
  map cam_id (cameras w') = map cam_id (cameras w) ->
  map cam_type (cameras w') = map cam_type (cameras w) ->
  map cam_selected (cameras w') = map cam_selected (cameras w) ->
  selected_sequence_cameras w' = selected_sequence_cameras w.
Proof.
  unfold selected_sequence_cameras, camera_type.
  generalize (cameras w) (cameras w'). intros cs cs' Hids Htypes Hsel.
  assert (Hfilter : map cam_id (filter cam_selected cs') =
                    map cam_id (filter cam_selected cs)).
  { revert cs' Hids Htypes Hsel.
    induction cs as [|c cs IH]; intros [|c' cs'] Hids Htypes Hsel;
      try discriminate; [reflexivity|].
    cbn [map] in *. injection Hids as Hi Hids. injection Htypes as _ Htypes.
    injection Hsel as Hs Hsel. cbn [filter]. rewrite Hs.
    destruct (cam_selected c); cbn [map]; rewrite (IH cs'); congruence. }
  assert (Htype : forall cam,
             option_map cam_type (tde4.lookup cam cs') =
             option_map cam_type (tde4.lookup cam cs)).
  { intros cam. unfold tde4.lookup. clear Hfilter.
    revert cs' Hids Htypes Hsel.
    induction cs as [|c cs IH]; intros [|c' cs'] Hids Htypes Hsel;
      try discriminate; [reflexivity|].
    cbn [map] in *. injection Hids as Hi Hids. injection Htypes as Ht Htypes.
    injection Hsel as _ Hsel. cbn [find]. rewrite Hi.
    destruct (Pos.eqb (cam_id c) cam); [cbn; now rewrite Ht|].
    now apply IH. }
  rewrite Hfilter. apply filter_ext. intros cam.
  specialize (Htype cam).
  destruct (tde4.lookup cam cs'), (tde4.lookup cam cs); cbn in Htype;
    congruence.
Qed.

(** A loop over cameras that all have a name starting with [name] asks the
    host for no new name. *)
Lemma loop_quiet (name path : string) (start stop step : Z)
      (ws : world) (l : list positive) :
  (forall cam, In cam l -> Py.startswith (current_name ws cam) name = true) ->
  exists w' evs,
    for_each l (Loader.assign_camera name path start stop step) ws =
      (Return tt, w') /\
    trace w' = (trace ws ++ evs)%list /\
    forall c n, ~ In (Tde4 (setCameraName c n)) evs.
Proof.
  intros Hnamed.
  destruct (for_each_invariant
              (Loader.assign_camera name path start stop step)
              (fun cam => In cam l)
              (fun _ w =>
                 (forall cam, current_name w cam = current_name ws cam) /\
                 exists evs, trace w = (trace ws ++ evs)%list /\
                             forall c n, ~ In (Tde4 (setCameraName c n)) evs))
    with (l := l) (done := @nil positive) (w := ws)
    as (w' & Hrun & _ & evs & Htrace & Hquiet).
  - intros x _ w Hx (Hsame & evs & Htrace & Hquiet).
    destruct (assign_camera_update name path start stop step x w)
      as (w' & f & evs1 & Hrun & Hcams & _ & _ & Htrace1 & Hf & Hcase).
    exists w'. split; [exact Hrun|].
    destruct Hcase as [(_ & Hname & Hquiet1)|(Hs & _)].
    2:{ rewrite Hsame, (Hnamed x Hx) in Hs. discriminate Hs. }
    split.
    + intros cam. rewrite <- Hsame. apply current_name_lookup.
      rewrite Hcams. apply lookup_update_name; [|assumption].
      intros c. apply Hf.
    + exists (evs ++ evs1)%list. split.
      * now rewrite Htrace1, Htrace, app_assoc.
      * intros c n Hin. apply in_app_iff in Hin.
        destruct Hin as [Hin|Hin];
          [exact (Hquiet _ _ Hin)|exact (Hquiet1 _ _ Hin)].
  - apply Forall_forall. auto.
  - split; [reflexivity|]. exists []. split; [now rewrite app_nil_r|].
    intros c n [].
  - exists w', evs. now repeat split.
Qed.

(** What an import that has returned leaves for the next one: the same
    disk, the same selected sequence cameras, all named after the entity. *)
Lemma import_returned_state (self : Loader.hook) (path : string) (data : pyval)
      (w w1 : world) :
  Loader._import_image_seq self path data w = (Return tt, w1) ->
  fs_glob w1 = fs_glob w /\
  selected_sequence_cameras w1 = selected_sequence_cameras w /\
  forall cam, In cam (selected_sequence_cameras w) ->
    Py.startswith (current_name w1 cam)
                  (Loader.context_entity_name (Loader.parent self)) = true.
Proof.
  intros Hrun.
  destruct (import_returned _ _ _ _ _ Hrun)
    as (p & s & e & d & wr & Hres & Hcams & Hfs & Hcase).
  destruct Hcase as [(Hc1 & Hf1 & _ & Hnone)|(Hsome & Hloop)].
  - split; [congruence|]. split.
    + apply selected_sequence_cameras_ext. congruence.
    + rewrite Hnone. intros cam [].
  - set (ws := emit (Log INFO "%d sequence cameras selected, assigning to all"
                         [LInt (Z.of_nat (List.length
                                            (selected_sequence_cameras w)))]) wr)
      in Hloop.
    assert (Hcs : cameras ws = cameras w) by exact Hcams.
    destruct (loop_frame (Loader.context_entity_name (Loader.parent self))
                p s e d ws (selected_sequence_cameras w))
      as (w' & Hrun' & Hfs' & _ & Hids & Htypes & Hsel & _).
    rewrite Hloop in Hrun'. injection Hrun' as <-.
    split; [exact (eq_trans Hfs' Hfs)|]. split.
    + apply selected_sequence_cameras_shape; congruence.
    + destruct (loop_assigns (Loader.context_entity_name (Loader.parent self))
                  p s e d ws (selected_sequence_cameras w))
        as (w' & Hrun' & Hpost).
      { apply Forall_forall. intros cam Hin. rewrite Hcs.
        now apply selected_sequence_camera_exists. }
      rewrite Hloop in Hrun'. injection Hrun' as <-.
      intros cam Hin. now apply Hpost.
Qed.

(** X13: after an import that has returned, the same import returns again
    and asks the host for no new camera name: the selected sequence cameras
    are named after the entity by then. *)
Theorem reimport_renames_nothing
        (self : Loader.hook) (path : string) (data : pyval) (w w1 : world) :
  Loader._import_image_seq self path data w = (Return tt, w1) ->
  exists w2,
    Loader._import_image_seq self path data w1 = (Return tt, w2) /\
    forall cam n, ~ In (Tde4 (setCameraName cam n)) (added w1 w2).
Proof.
  intros Hrun.
  destruct (import_returned_state _ _ _ _ _ Hrun) as (Hfs & Hsel & Hnamed).
  destruct (import_returned _ _ _ _ _ Hrun)
    as (p & s & e & d & wr & Hres & _).
  assert (Hout : outcome (Loader.get_hash_path_and_range_info_from_seq path) w1
                 = Return (p, s, e, d)).
  { rewrite (resolver_outcome_disk path w w1 Hfs). unfold outcome.
    now rewrite Hres. }
  destruct (resolver_added path w1) as (Hcams1 & _ & _ & evs0 & Htrace0 & Hglob).
  unfold outcome in Hout.
  destruct (Loader.get_hash_path_and_range_info_from_seq path w1)
    as [r wr1] eqn:Hres1.
  cbn [fst snd] in Hout, Hcams1, Htrace0. subst r.
  assert (Hquiet0 : forall ev, In ev evs0 ->
                      forall c n, ev <> Tde4 (setCameraName c n)).
  { intros ev Hin c n E. destruct (Hglob _ Hin) as [pattern Ep]. congruence. }
  rewrite (import_unfold _ _ _ _ _ _ _ _ _ Hres1).
  rewrite (selected_sequence_cameras_ext _ _ Hcams1), Hsel.
  assert (Hwarn : forall title text,
             exists w2,
               (Return tt, emit (QMessageBox_warning title text) wr1) =
               (Return tt, w2) /\
               forall cam n, ~ In (Tde4 (setCameraName cam n)) (added w1 w2)).
  { intros title text. eexists. split; [reflexivity|].
    intros cam n Hin.
    rewrite (added_app w1 _ (evs0 ++ [QMessageBox_warning title text])) in Hin
      by (cbn [trace emit]; now rewrite Htrace0, <- app_assoc).
    apply in_app_iff in Hin. destruct Hin as [Hin|[E|[]]].
    - exact (Hquiet0 _ Hin cam n eq_refl).
    - discriminate E. }
  destruct (Z.of_nat (List.length (cameras wr1)) =? 0)%Z; [apply Hwarn|].
  destruct (selected_sequence_cameras w) as [|c0 l] eqn:El; [apply Hwarn|].
  destruct (loop_quiet (Loader.context_entity_name (Loader.parent self))
              p s e d
              (emit (Log INFO "%d sequence cameras selected, assigning to all"
                         [LInt (Z.of_nat (List.length (c0 :: l)))]) wr1)
              (c0 :: l))
    as (w2 & evs & Hrun2 & Htrace2 & Hquiet2).
  { intros cam Hin. unfold current_name. cbn [cameras emit]. rewrite Hcams1.
    now apply Hnamed. }
  exists w2. split; [exact Hrun2|].
  intros cam n Hin.
  rewrite (added_app w1 _
             (evs0 ++ [Log INFO "%d sequence cameras selected, assigning to all"
                           [LInt (Z.of_nat (List.length (c0 :: l)))]] ++ evs))
    in Hin
    by (rewrite Htrace2; cbn [trace emit]; now rewrite Htrace0, <- !app_assoc).
  apply in_app_iff in Hin. destruct Hin as [Hin|Hin].
  - exact (Hquiet0 _ Hin cam n eq_refl).
  - apply in_app_iff in Hin. destruct Hin as [[E|[]]|Hin].
    + discriminate E.
    + exact (Hquiet2 _ _ Hin).
Qed.

Lemma reimport_renames_nothing_witness :
  let w1 := snd (Loader._import_image_seq shot_hook "/seq/shot.%04d.jpg" PNone
                   two_camera_world) in
  exists w2,
    Loader._import_image_seq shot_hook "/seq/shot.%04d.jpg" PNone w1 =
      (Return tt, w2) /\
    forall cam n, ~ In (Tde4 (setCameraName cam n)) (added w1 w2).
Proof.
  intros w1.
  apply (reimport_renames_nothing shot_hook "/seq/shot.%04d.jpg" PNone
           two_camera_world w1).
  vm_compute. reflexivity.
Defined.

(** ** The counter of a new camera name *)

(** X14: the counter of the name that a renamed camera gets is at most the
    number of cameras of the project: the loop that looks for a free name
    asks the host at most once more than there are cameras. *)
Theorem rename_counter_bounded
        (base path : string) (start stop step : Z) (cam : positive) (w : world) :
  Py.startswith (current_name w cam) base = false ->
  exists k w',
    (k <= List.length (cameras w))%nat /\
    Loader.assign_camera base path start stop step cam w = (Return tt, w') /\
    In (Tde4 (setCameraName cam (candidate base k))) (added w w').
Proof.
  intros H.
  destruct (assign_camera_renamed base path start stop step cam w H)
    as (k & Hrun & Hfree & Hbelow).
  destruct (first_free_candidate base w) as (k' & Hk' & Hfree' & Hbelow').
  assert (k = k').
  { destruct (Nat.lt_trichotomy k k') as [Hlt|[E|Hgt]]; [|assumption|].
    - destruct (Hfree (Hbelow' k Hlt)).
    - destruct (Hfree' (Hbelow k' Hgt)). }
  subst k'. exists k. eexists. split; [assumption|]. split; [exact Hrun|].
  erewrite added_app by reflexivity.
  apply in_app_iff. left. right. right. left. reflexivity.
Qed.

Lemma rename_counter_bounded_witness :
  let w := world_of_cameras [sequence_camera 1 "shot010" false;
                             sequence_camera 2 "plate" true] in
  exists k w',
    (k <= 2)%nat /\
    Loader.assign_camera "shot010" "/seq/shot.####.jpg" 1001 1004 1 2 w =
      (Return tt, w') /\
    In (Tde4 (setCameraName 2 (candidate "shot010" k))) (added w w').
Proof.
  intros w.
  exact (rename_counter_bounded "shot010" "/seq/shot.####.jpg" 1001 1004 1 2 w
           eq_refl).
Defined.

(** ** The actions offered and the actions run *)





(** ** The order in which the disk lists the files *)

Lemma collect_frame_numbers_perm (files files' : list string) :
  Permutation files files' ->
  Permutation (Loader.collect_frame_numbers files)
              (Loader.collect_frame_numbers files').
Proof.
  induction 1 as [|f l l' _ IH|f g l|l l' l'' _ IH1 _ IH2]; simpl.
  - constructor.
  - destruct (Loader.frame_number_search f); [now constructor|assumption].
  - destruct (Loader.frame_number_search f), (Loader.frame_number_search g);
      try reflexivity. apply perm_swap.
  - now transitivity (Loader.collect_frame_numbers l').
Qed.

(** Two ascending lists with the same elements are the same list. *)
Lemma sorted_unique (l l' : list Z) :
  Sorted Z.le l -> Sorted Z.le l' -> Permutation l l' -> l = l'.
Proof.
  intros Hl Hl'.
  apply Sorted_StronglySorted in Hl; [|intros a b c; apply Z.le_trans].
  apply Sorted_StronglySorted in Hl'; [|intros a b c; apply Z.le_trans].
  revert l' Hl'. induction Hl as [|x r Hr IH Hx]; intros l' Hl' Hp.
  - apply Permutation_nil in Hp. now subst.
  - destruct l' as [|y r'].
    + apply Permutation_sym, Permutation_nil in Hp. discriminate Hp.
    + apply StronglySorted_inv in Hl'. destruct Hl' as [Hr' Hy].
      assert (E : x = y).
      { assert (Hxy : In x (y :: r')).
        { apply (Permutation_in _ Hp). now left. }
        assert (Hyx : In y (x :: r)).
        { apply (Permutation_in _ (Permutation_sym Hp)). now left. }
        rewrite Forall_forall in Hx, Hy.
        destruct Hxy as [->|Hxy]; [reflexivity|].
        destruct Hyx as [->|Hyx]; [reflexivity|].
        specialize (Hx y Hyx). specialize (Hy x Hxy). lia. }
      subst y. f_equal. apply IH; [assumption|].
      now apply Permutation_cons_inv in Hp.
Qed.

Lemma frame_numbers_perm (files files' : list string) :
  Permutation files files' ->
  Loader.get_frame_numbers files = Loader.get_frame_numbers files'.
Proof.
  intros Hp. unfold Loader.get_frame_numbers.
  apply sorted_unique; try apply sorted_Sorted.
  rewrite !sorted_perm. now apply collect_frame_numbers_perm.
Qed.

(** X17: [get_frame_numbers] gives the same list for the same paths in
    another order, and this list is ascending, of numbers that are not
    negative, with one number at most for each path. *)
Theorem get_frame_numbers_order (files files' : list string) :
  Permutation files files' ->
  Loader.get_frame_numbers files = Loader.get_frame_numbers files' /\
  Sorted Z.le (Loader.get_frame_numbers files) /\
  Forall (fun n => (0 <= n)%Z) (Loader.get_frame_numbers files) /\
  (List.length (Loader.get_frame_numbers files) <= List.length files)%nat.
Proof.
  intros Hp. split; [now apply frame_numbers_perm|].
  split; [apply sorted_Sorted|].
  split; [apply get_frame_numbers_nonneg|apply frame_numbers_length].
Qed.

Lemma get_frame_numbers_order_witness :
  Loader.get_frame_numbers
    ["/seq/shot.1003.jpg"; "/seq/shot.tmp.jpg"; "/seq/shot.1001.jpg"] =
  Loader.get_frame_numbers
    ["/seq/shot.1001.jpg"; "/seq/shot.1003.jpg"; "/seq/shot.tmp.jpg"].
Proof.
  apply (get_frame_numbers_order
           ["/seq/shot.1003.jpg"; "/seq/shot.tmp.jpg"; "/seq/shot.1001.jpg"]
           ["/seq/shot.1001.jpg"; "/seq/shot.1003.jpg"; "/seq/shot.tmp.jpg"]).
  eapply perm_trans; [apply perm_skip, perm_swap|apply perm_swap].
Defined.

(** X18: what the resolver returns or raises does not depend on the order
    in which the disk lists the files that the template matches. *)
Theorem resolve_listing_order (path spec width : string) (w w' : world) :
  Loader.frame_spec_search path = Some (spec, width) ->
  Permutation (matched_files w path spec) (matched_files w' path spec) ->
  outcome (Loader.get_hash_path_and_range_info_from_seq path) w =
  outcome (Loader.get_hash_path_and_range_info_from_seq path) w'.
Proof.
  intros Hs Hp. unfold outcome.
  pose proof (frame_numbers_perm _ _ Hp) as Hnum.
  destruct (matched_files w path spec) as [|f fs] eqn:E.
  - apply Permutation_nil in Hp.
    now rewrite (resolve_no_file _ _ _ _ Hs E), (resolve_no_file _ _ _ _ Hs Hp).
  - assert (Hne : matched_files w' path spec <> []).
    { intros E'. rewrite E' in Hp.
      apply Permutation_sym, Permutation_nil in Hp. discriminate Hp. }
    rewrite (resolve_files _ _ _ w Hs) by (rewrite E; discriminate).
    rewrite (resolve_files _ _ _ w' Hs Hne).
    rewrite E, Hnum.
    destruct (1 <? _)%nat; [reflexivity|].
    destruct (py_min _); [|reflexivity].
    destruct (py_max _); [|reflexivity].
    destruct (py_item0 _); reflexivity.
Qed.

Lemma resolve_listing_order_witness :
  outcome (Loader.get_hash_path_and_range_info_from_seq "/seq/shot.%04d.jpg")
          (world_of_disk "/seq/shot.*.jpg"
             ["/seq/shot.1002.jpg"; "/seq/shot.1001.jpg"]) =
  outcome (Loader.get_hash_path_and_range_info_from_seq "/seq/shot.%04d.jpg")
          (world_of_disk "/seq/shot.*.jpg"
             ["/seq/shot.1001.jpg"; "/seq/shot.1002.jpg"]).
Proof.
  apply (resolve_listing_order _ "%04d" "4"); [reflexivity|].
  apply perm_swap.
Defined.

(** ** The scene operations that change nothing *)

(** X19: of the scene operations only ["open"] and ["save"] call the host
    to change something: every other operation, known or not, leaves the
    world as it is. *)
Theorem scene_operation_untouched (operation file_path : string) (w : world) :
  operation <> "open" -> operation <> "save" ->
  snd (Snapshot.execute operation file_path w) = w.
Proof.
  intros Hopen Hsave. unfold Snapshot.execute.
  destruct (String.eqb operation "current_path"); [reflexivity|].
  destruct (String.eqb operation "open") eqn:Eo.
  { apply String.eqb_eq in Eo. contradiction. }
  destruct (String.eqb operation "save") eqn:Es.
  { apply String.eqb_eq in Es. contradiction. }
  reflexivity.
Qed.

Lemma scene_operation_untouched_witness :
  snd (Snapshot.execute "Save" "/projects/shot010.3de" shot_world) = shot_world.
Proof. apply scene_operation_untouched; discriminate. Defined.

(** ** Importing again changes no camera *)

Lemma set_attributes_fixed (path : string) (start stop step : Z) (c : camera) :
  has_attributes path start stop step c ->
  set_attributes path start stop step c = c.
Proof.
  destruct c as [i n t sel a o fl pa]. unfold has_attributes. cbn.
  intros (-> & -> & -> & ->). reflexivity.
Qed.

Lemma update_fixed (cam : positive) (f : camera -> camera) (cs : list camera) :
  (forall c, In c cs -> cam_id c = cam -> f c = c) ->
  tde4.update cam f cs = cs.
Proof.
  intros H. unfold tde4.update. rewrite <- (map_id cs) at 2.
  apply map_ext_in. intros c Hc.
  destruct (Pos.eqb (cam_id c) cam) eqn:E; [|reflexivity].
  apply Pos.eqb_eq in E. now apply H.
Qed.

(** After the loop every camera with the identifier of a camera that has
    had its turn has the attributes of the sequence. *)
Lemma loop_attributes (name path : string) (start stop step : Z)
      (ws : world) (l : list positive) :
  exists w',
    for_each l (Loader.assign_camera name path start stop step) ws =
      (Return tt, w') /\
    forall c, In c (cameras w') -> In (cam_id c) l ->
              has_attributes path start stop step c.
Proof.
  destruct (for_each_invariant
              (Loader.assign_camera name path start stop step)
              (fun _ => True)
              (fun done w =>
                 forall c, In c (cameras w) -> In (cam_id c) done ->
                           has_attributes path start stop step c))
    with (l := l) (done := @nil positive) (w := ws) as (w' & Hrun & Hinv).
  - intros x done w _ Hdone.
    destruct (assign_camera_update name path start stop step x w)
      as (w' & f & evs & Hrun & Hcams & _ & _ & _ & Hf & _).
    exists w'. split; [exact Hrun|]. rewrite Hcams.
    intros c' Hin Hid. unfold tde4.update in Hin.
    apply in_map_iff in Hin. destruct Hin as (c & <- & Hc).
    destruct (Pos.eqb (cam_id c) x) eqn:E; [apply Hf|].
    apply Pos.eqb_neq in E. destruct Hid as [Hx|Hd]; [congruence|].
    now apply Hdone.
  - apply Forall_forall. auto.
  - intros c _ [].
  - exists w'. split; [exact Hrun|]. intros c Hc Hid. apply (Hinv c Hc).
    rewrite app_nil_r. now apply -> in_rev.
Qed.

(** A loop over cameras that are named after the entity and have the
    attributes already leaves the cameras as they are. *)
Lemma loop_fixed (name path : string) (start stop step : Z)
      (ws : world) (l : list positive) :
  (forall cam, In cam l -> Py.startswith (current_name ws cam) name = true) ->
  (forall c, In c (cameras ws) -> In (cam_id c) l ->
             has_attributes path start stop step c) ->
  exists w',
    for_each l (Loader.assign_camera name path start stop step) ws =
      (Return tt, w') /\
    cameras w' = cameras ws.
Proof.
  intros Hnamed Hattr.
  destruct (for_each_invariant
              (Loader.assign_camera name path start stop step)
              (fun cam => In cam l)
              (fun _ w => cameras w = cameras ws))
    with (l := l) (done := @nil positive) (w := ws) as (w' & Hrun & Hinv).
  - intros x _ w Hx Hsame.
    assert (Hs : Py.startswith (current_name w x) name = true).
    { unfold current_name. rewrite Hsame. now apply Hnamed. }
    eexists. split; [apply (assign_camera_named _ _ _ _ _ _ _ Hs)|].
    cbn [cameras]. rewrite Hsame. apply update_fixed.
    intros c Hc Hid. apply set_attributes_fixed. apply Hattr; [assumption|].
    now rewrite Hid.
  - apply Forall_forall. auto.
  - reflexivity.
  - exists w'. now split.
Qed.

(** X20: after an import that has returned, the same import returns again
    and leaves every camera as the first import has left it. *)
Theorem reimport_changes_no_camera
        (self : Loader.hook) (path : string) (data : pyval) (w w1 : world) :
  Loader._import_image_seq self path data w = (Return tt, w1) ->
  exists w2,
    Loader._import_image_seq self path data w1 = (Return tt, w2) /\
    cameras w2 = cameras w1.
Proof.
  intros Hrun.
  destruct (import_returned_state _ _ _ _ _ Hrun) as (Hfs & Hsel & Hnamed).
  destruct (import_returned _ _ _ _ _ Hrun)
    as (p & s & e & d & wr & Hres & Hcams & _ & Hcase).
  assert (Hattr : forall c, In c (cameras w1) ->
                    In (cam_id c) (selected_sequence_cameras w) ->
                    has_attributes p s e d c).
  { destruct Hcase as [(_ & _ & _ & Hnone)|(_ & Hloop)].
    - rewrite Hnone. intros c _ [].
    - destruct (loop_attributes
                  (Loader.context_entity_name (Loader.parent self)) p s e d
                  (emit (Log INFO "%d sequence cameras selected, assigning to all"
                             [LInt (Z.of_nat (List.length
                                                (selected_sequence_cameras w)))])
                        wr)
                  (selected_sequence_cameras w)) as (w' & Hrun' & Hpost).
      rewrite Hloop in Hrun'. injection Hrun' as <-. exact Hpost. }
  assert (Hout : outcome (Loader.get_hash_path_and_range_info_from_seq path) w1
                 = Return (p, s, e, d)).
  { rewrite (resolver_outcome_disk path w w1 Hfs). unfold outcome.
    now rewrite Hres. }
  destruct (resolver_added path w1) as (Hcams1 & _).
  unfold outcome in Hout.
  destruct (Loader.get_hash_path_and_range_info_from_seq path w1)
    as [r wr1] eqn:Hres1.
  cbn [fst snd] in Hout, Hcams1. subst r.
  rewrite (import_unfold _ _ _ _ _ _ _ _ _ Hres1).
  rewrite (selected_sequence_cameras_ext _ _ Hcams1), Hsel.
  destruct (Z.of_nat (List.length (cameras wr1)) =? 0)%Z;
    [eexists; split; [reflexivity|exact Hcams1]|].
  destruct (selected_sequence_cameras w) as [|c0 l] eqn:El;
    [eexists; split; [reflexivity|exact Hcams1]|].
  destruct (loop_fixed (Loader.context_entity_name (Loader.parent self))
              p s e d
              (emit (Log INFO "%d sequence cameras selected, assigning to all"
                         [LInt (Z.of_nat (List.length (c0 :: l)))]) wr1)
              (c0 :: l))
    as (w2 & Hrun2 & Hsame).
  - intros cam Hin. unfold current_name. cbn [cameras emit]. rewrite Hcams1.
    now apply Hnamed.
  - cbn [cameras emit]. rewrite Hcams1. exact Hattr.
  - exists w2. split; [exact Hrun2|]. rewrite Hsame. exact Hcams1.
Qed.

Lemma reimport_changes_no_camera_witness :
  let w1 := snd (Loader._import_image_seq shot_hook "/seq/shot.%04d.jpg" PNone
                   two_camera_world) in
  exists w2,
    Loader._import_image_seq shot_hook "/seq/shot.%04d.jpg" PNone w1 =
      (Return tt, w2) /\
    cameras w2 = cameras w1.
Proof.
  intros w1.
  apply (reimport_changes_no_camera shot_hook "/seq/shot.%04d.jpg" PNone
           two_camera_world w1).
  vm_compute. reflexivity.
Defined.
